(** * A shallow embedding of [src/main.py]: the [/github-push] handler

    The handler and its five step functions ([check_git_config],
    [clone_repository], [stage_changes], [commit_changes], [push_changes])
    are modelled over an exception-and-state monad.  The state is the
    process-wide current directory, the file system as seen by [os], and the
    trace of every command line handed to [terminal.execute] together with the
    directory it ran in.  The terminal itself is an external collaborator: it is
    a parameter of the development, a function of the command history, the
    file system, the working directory and the command line. *)

From Stdlib Require Import String Ascii List ZArith Bool Lia.
Import ListNotations.
Local Open Scope string_scope.
#[local] Set Warnings "-register-all".

(** ** Python values

    JSON request bodies and the dicts returned by the step functions.  A dict
    is an association list in insertion order. *)

Inductive pyval : Type :=
| PNone : pyval
| PBool : bool -> pyval
| PInt : Z -> pyval
| PStr : string -> pyval
| PList : list pyval -> pyval
| PDict : list (string * pyval) -> pyval.

(** Python truthiness ([if x:], [bool(x)]). *)
Definition truthy (v : pyval) : bool :=
  match v with
  | PNone => false
  | PBool b => b
  | PInt z => negb (z =? 0)%Z
  | PStr s => negb (String.eqb s "")
  | PList l => negb (List.length l =? 0)%nat
  | PDict d => negb (List.length d =? 0)%nat
  end.

Fixpoint dict_find (k : string) (d : list (string * pyval)) : option pyval :=
  match d with
  | [] => None
  | (k', v) :: d' => if String.eqb k k' then Some v else dict_find k d'
  end.

(** ** String operations of Python's [str] *)

Definition dq : string := String (ascii_of_nat 34) EmptyString.
Definition sq : string := String (ascii_of_nat 39) EmptyString.

(** [needle in hay] *)
Fixpoint str_contains (needle hay : string) : bool :=
  prefix needle hay ||
  match hay with
  | EmptyString => false
  | String _ hay' => str_contains needle hay'
  end.

(** [s.split(c)] for a one-character separator: never empty. *)
Fixpoint split_char (c : ascii) (s : string) : list string :=
  match s with
  | EmptyString => [EmptyString]
  | String a s' =>
      let parts := split_char c s' in
      if Ascii.eqb a c then EmptyString :: parts
      else match parts with
           | p :: ps => String a p :: ps
           | [] => [String a EmptyString]
           end
  end.

(** [l[-1]] on the non-empty result of [split]. *)
Definition last_elem (l : list string) : string := List.last l EmptyString.

(** [s.replace(old, new)]: every non-overlapping occurrence, left to right.
    The fuel [length s] suffices because each step consumes a character. *)
Fixpoint replace_fuel (fuel : nat) (old new s : string) : string :=
  match fuel with
  | O => s
  | S f =>
      match s with
      | EmptyString => EmptyString
      | String a s' =>
          if (0 <? String.length old)%nat && prefix old s
          then new ++ replace_fuel f old new
                 (substring (String.length old)
                    (String.length s - String.length old) s)
          else String a (replace_fuel f old new s')
      end
  end.

Definition str_replace (old new s : string) : string :=
  replace_fuel (String.length s) old new s.

(** [s.strip()]: [str.isspace] on the code points below 256, the tab to
    the carriage return (9 to 13), the separators 28 to 31, the space, the
    next-line 133 and the no-break space 160. *)
Definition is_space (a : ascii) : bool :=
  let n := nat_of_ascii a in
  ((9 <=? n)%nat && (n <=? 13)%nat) || ((28 <=? n)%nat && (n <=? 32)%nat) ||
  (n =? 133)%nat || (n =? 160)%nat.

Fixpoint lstrip (s : string) : string :=
  match s with
  | EmptyString => EmptyString
  | String a s' => if is_space a then lstrip s' else s
  end.

Fixpoint rev_str (s : string) (acc : string) : string :=
  match s with
  | EmptyString => acc
  | String a s' => rev_str s' (String a acc)
  end.

Definition strip (s : string) : string :=
  rev_str (lstrip (rev_str (lstrip s) EmptyString)) EmptyString.

Fixpoint ends_with_slash (s : string) : bool :=
  match s with
  | EmptyString => false
  | String c EmptyString => Ascii.eqb c "/"%char
  | String _ s' => ends_with_slash s'
  end.

Definition starts_with_slash (s : string) : bool :=
  match s with
  | String c _ => Ascii.eqb c "/"%char
  | EmptyString => false
  end.

(** [os.path.join(a, b)] of [posixpath] for two string arguments. *)
Definition posix_join (a b : string) : string :=
  if starts_with_slash b then b
  else if String.eqb a "" || ends_with_slash a then a ++ b
  else a ++ "/" ++ b.

(** ** Formatting values into f-strings

    [str(v)]; a string nested in a list or dict is shown by its [repr], here
    always between single quotes (escapes are not modelled). *)

Fixpoint digits_fuel (fuel : nat) (n : N) (acc : string) : string :=
  match fuel with
  | O => acc
  | S f =>
      let d := String (ascii_of_N (48 + N.modulo n 10)) acc in
      if (n <? 10)%N then d else digits_fuel f (N.div n 10) d
  end.

Definition z_to_string (z : Z) : string :=
  let n := Z.abs_N z in
  let ds := digits_fuel (N.to_nat (N.log2 n) + 1) n EmptyString in
  if (z <? 0)%Z then "-" ++ ds else ds.

Fixpoint join_with (sep : string) (l : list string) : string :=
  match l with
  | [] => EmptyString
  | [x] => x
  | x :: l' => x ++ sep ++ join_with sep l'
  end.

Fixpoint py_repr (v : pyval) : string :=
  match v with
  | PNone => "None"
  | PBool true => "True"
  | PBool false => "False"
  | PInt z => z_to_string z
  | PStr s => sq ++ s ++ sq
  | PList l => "[" ++ join_with ", " (map py_repr l) ++ "]"
  | PDict d =>
      "{" ++ join_with ", "
               (map (fun kv => sq ++ fst kv ++ sq ++ ": " ++ py_repr (snd kv)) d)
      ++ "}"
  end.

Definition py_str (v : pyval) : string :=
  match v with
  | PStr s => s
  | _ => py_repr v
  end.

(** ** Processes, the file system and the program state *)

(** What [terminal.execute] returns. *)
Record proc_result := mk_proc {
  returncode : Z;
  stdout : string;
  stderr : string
}.

(** An absolute path as the list of its components: [/w/app] is
    [["w"; "app"]] and the root is [[]]. *)
Definition path := list string.

(** The components of a path string: empty components are dropped, so
    repeated and trailing slashes do not separate names; [.] and [..] are
    kept, for the lookup to resolve. *)
Definition components (s : string) : path :=
  filter (fun x => negb (String.eqb x "")) (split_char "/"%char s).

Definition render (q : path) : string := "/" ++ join_with "/" q.

(** The file system: each existing path other than the root, with a flag
    telling whether it is a directory. *)
Definition fsys := list (path * bool).

Fixpoint path_eqb (p q : path) : bool :=
  match p, q with
  | [], [] => true
  | x :: p', y :: q' => String.eqb x y && path_eqb p' q'
  | _, _ => false
  end.

Definition fs_exists (f : fsys) (q : path) : bool :=
  match q with
  | [] => true
  | _ => existsb (fun e => path_eqb (fst e) q) f
  end.

Definition fs_is_dir (f : fsys) (q : path) : bool :=
  match q with
  | [] => true
  | _ => existsb (fun e => path_eqb (fst e) q && snd e) f
  end.

(** What the handler does to the outside world, in order: the argument of
    every [os.chdir] call, and every command line handed to the terminal with
    the working directory it ran in. *)
Inductive event :=
| EvChdir (arg : string)
| EvExec (dir cmd : string).

(** The permissions of the server process: whether it may search a
    directory (look up names in it and enter it) and whether it may create
    entries in it. *)
Record access := mk_access {
  may_search : path -> bool;
  may_write : path -> bool
}.

(** The working directory is kept as the string [os.getcwd()] returns;
    it may have been removed from the file system since it was entered. *)
Record state := mk_state {
  cwd : string;
  fs : fsys;
  trace : list event;
  acc : access
}.

(** The terminal: given the events so far, the file system, the working
    directory and the command line, it either raises (an exception message) or
    returns a process result, and it may change the file system ([git clone]
    creates a directory). *)
Definition terminal := list event -> fsys -> string -> string ->
                       (string + proc_result) * fsys.

(** ** The exception-and-state monad

    An exception is its message, [str(e)]; effects performed before it was
    raised are kept. *)

Definition M (A : Type) := state -> (string + A) * state.

Definition ret {A} (a : A) : M A := fun s => (inr a, s).

Definition bind {A B} (m : M A) (k : A -> M B) : M B :=
  fun s => match m s with
           | (inl e, s') => (inl e, s')
           | (inr a, s') => k a s'
           end.

Definition raise {A} (msg : string) : M A := fun s => (inl msg, s).

(** [try: body except Exception as e: handler(str(e))] *)
Definition try_except {A} (body : M A) (handler : string -> M A) : M A :=
  fun s => match body s with
           | (inl e, s') => handler e s'
           | r => r
           end.

Notation "x <- m ;; k" := (bind m (fun x => k))
  (at level 61, m at next level, right associativity).
Notation "m ;;; k" := (bind m (fun _ => k))
  (at level 61, right associativity).

Definition get_state : M state := fun s => (inr s, s).
Definition put_state (s' : state) : M unit := fun _ => (inr tt, s').

(** ** Python built-ins used by the handler *)

(** [type(v).__name__] *)
Definition type_name (v : pyval) : string :=
  match v with
  | PNone => "NoneType"
  | PBool _ => "bool"
  | PInt _ => "int"
  | PStr _ => "str"
  | PList _ => "list"
  | PDict _ => "dict"
  end.

(** [data.get(k, default)]: only a dict has [get]. *)
Definition py_get (data : pyval) (k : string) (default : pyval) : M pyval :=
  match data with
  | PDict d => ret (match dict_find k d with Some v => v | None => default end)
  | _ => raise (sq ++ type_name data ++ sq ++ " object has no attribute 'get'")
  end.

(** [d[k]] *)
Definition getitem (data : pyval) (k : string) : M pyval :=
  match data with
  | PDict d =>
      match dict_find k d with
      | Some v => ret v
      | None => raise (sq ++ k ++ sq)
      end
  | PStr _ => raise "string indices must be integers, not 'str'"
  | PList _ => raise "list indices must be integers or slices, not str"
  | _ => raise (sq ++ type_name data ++ sq ++ " object is not subscriptable")
  end.

(** A path argument of [os]: a [str]; other JSON values are refused
    (file descriptors given as integers are not modelled). *)
Definition as_path (v : pyval) : M string :=
  match v with
  | PStr p => ret p
  | _ => raise ("expected str, bytes or os.PathLike object, not " ++ type_name v)
  end.

(** [for x in v]: the items a [for] loop visits. *)
Definition py_iter (v : pyval) : M (list pyval) :=
  match v with
  | PList l => ret l
  | PDict d => ret (map (fun kv => PStr (fst kv)) d)
  | PStr s => ret (map (fun a => PStr (String a EmptyString)) (list_ascii_of_string s))
  | _ => raise (sq ++ type_name v ++ sq ++ " object is not iterable")
  end.

(** ** Path lookup, as the kernel does it for [stat], [chdir] and [mkdir] *)

Inductive errno := ENOENT | ENOTDIR | EACCES | EEXIST.

Definition errno_eqb (a b : errno) : bool :=
  match a, b with
  | ENOENT, ENOENT | ENOTDIR, ENOTDIR | EACCES, EACCES | EEXIST, EEXIST => true
  | _, _ => false
  end.

(** [str(e)] of an [OSError] without a file name. *)
Definition strerror (e : errno) : string :=
  match e with
  | ENOENT => "[Errno 2] No such file or directory"
  | ENOTDIR => "[Errno 20] Not a directory"
  | EACCES => "[Errno 13] Permission denied"
  | EEXIST => "[Errno 17] File exists"
  end.

(** [str(e)] of the [OSError] an [os] function raises for the path [p]. *)
Definition os_error (e : errno) (p : string) : string :=
  strerror e ++ ": " ++ py_repr (PStr p).

Definition cwd_path (s : state) : path := components (cwd s).

(** Where the lookup of [p] starts: the root or the working directory. *)
Definition start (s : state) (p : string) : path :=
  if starts_with_slash p then [] else cwd_path s.

(** One component looked up from the directory [cur]. Search permission on
    [cur] comes first; [.] stays and [..] goes up (the root is its own
    parent); a name needs [cur] to be still in the file system (a removed
    working directory holds nothing). The boolean tells whether the place
    reached is a directory. *)
Definition lookup_step (s : state) (cur : path) (c : string) : errno + (path * bool) :=
  if negb (may_search (acc s) cur) then inl EACCES
  else if String.eqb c "." then inr (cur, true)
  else if String.eqb c ".." then inr (removelast cur, true)
  else if negb (fs_is_dir (fs s) cur) then inl ENOENT
  else
    let q := app cur [c] in
    if fs_exists (fs s) q then inr (q, fs_is_dir (fs s) q) else inl ENOENT.

(** The components in turn; each one but the last must reach a directory. *)
Fixpoint walk (s : state) (cur : path) (cs : list string) : errno + (path * bool) :=
  match cs with
  | [] => inr (cur, true)
  | c :: cs' =>
      match lookup_step s cur c with
      | inl e => inl e
      | inr (q, isdir) =>
          match cs' with
          | [] => inr (q, isdir)
          | _ => if isdir then walk s q cs' else inl ENOTDIR
          end
      end
  end.

(** The lookup of a whole path: the empty path names nothing, and a
    trailing slash asks for a directory. *)
Definition lookup (s : state) (p : string) : errno + (path * bool) :=
  if String.eqb p "" then inl ENOENT
  else match walk s (start s p) (components p) with
       | inr (q, false) => if ends_with_slash p then inl ENOTDIR else inr (q, false)
       | r => r
       end.

(** [os.path.exists(p)] for a string: the lookup succeeds. *)
Definition path_exists (s : state) (p : string) : bool :=
  match lookup s p with inr _ => true | inl _ => false end.

(** The system call [mkdir(p)]: the parent is looked up, then the last
    component is created, if it is a name not yet taken and the parent may
    be written. *)
Definition mkdir (s : state) (p : string) : errno + fsys :=
  if String.eqb p "" then inl ENOENT
  else
    let cs := components p in
    match cs with
    | [] => inl EEXIST
    | _ =>
        match walk s (start s p) (removelast cs) with
        | inl e => inl e
        | inr (_, false) => inl ENOTDIR
        | inr (par, true) =>
            let c := last cs "" in
            if negb (may_search (acc s) par) then inl EACCES
            else if String.eqb c "." || String.eqb c ".." then inl EEXIST
            else if negb (fs_is_dir (fs s) par) then inl ENOENT
            else if fs_exists (fs s) (app par [c]) then inl EEXIST
            else if negb (may_write (acc s) par) then inl EACCES
            else inr (app (fs s) [(app par [c], true)])
        end
    end.

(** [p.rfind("/")]: the part up to and including the last slash, and the
    rest. *)
Fixpoint split_last_slash (p : string) : string * string :=
  match p with
  | EmptyString => (EmptyString, EmptyString)
  | String a p' =>
      let (h, t) := split_last_slash p' in
      if String.eqb h "" then
        (if Ascii.eqb a "/"%char then (String a EmptyString, t) else (EmptyString, p))
      else (String a h, t)
  end.

(** [s.rstrip("/")] *)
Fixpoint rstrip_slash (s : string) : string :=
  match s with
  | EmptyString => EmptyString
  | String a s' =>
      let r := rstrip_slash s' in
      if String.eqb r "" && Ascii.eqb a "/"%char then EmptyString else String a r
  end.

(** [posixpath.split(p)]: trailing slashes of the head are dropped unless
    it is all slashes. *)
Definition posix_split (p : string) : string * string :=
  let (head, tail) := split_last_slash p in
  if negb (String.eqb head "") && negb (String.eqb (rstrip_slash head) "")
  then (rstrip_slash head, tail) else (head, tail).

(** [os.makedirs(name)] with [exist_ok=False], as [os.py] writes it:

      head, tail = path.split(name)
      if not tail: head, tail = path.split(head)
      if head and tail and not path.exists(head):
          try: makedirs(head)
          except FileExistsError: pass
          if tail == curdir: return
      mkdir(name)

    The result is the file system after the call and the error raised, with
    the path given to the failing [mkdir]. Each recursive call is on a
    [head] shorter than [name], so the fuel [length name + 1] never runs
    out. *)
Fixpoint makedirs_fuel (fuel : nat) (s : state) (name : string)
    : option (errno * string) * fsys :=
  let mk (s1 : state) :=
    match mkdir s1 name with
    | inl e => (Some (e, name), fs s1)
    | inr f' => (None, f')
    end in
  match fuel with
  | O => mk s
  | S fuel' =>
      let '(head, tail) :=
        let '(h, t) := posix_split name in
        if String.eqb t "" then posix_split h else (h, t) in
      if negb (String.eqb head "") && negb (String.eqb tail "") &&
         negb (path_exists s head)
      then
        let '(r, f1) := makedirs_fuel fuel' s head in
        if match r with Some (e, _) => negb (errno_eqb e EEXIST) | None => false end
        then (r, f1)
        else if String.eqb tail "." then (None, f1)
        else mk (mk_state (cwd s) f1 (trace s) (acc s))
      else mk s
  end.

(** ** The [os] functions the handler calls *)

(** [os.getcwd()] raises once the working directory has been removed. *)
Definition os_getcwd : M pyval :=
  fun s =>
    if fs_is_dir (fs s) (cwd_path s) then (inr (PStr (cwd s)), s)
    else (inl (strerror ENOENT), s).

(** [os.path.exists(p)] *)
Definition os_path_exists (v : pyval) : M bool :=
  p <- as_path v ;;
  st <- get_state ;;
  ret (path_exists st p).

(** [os.path.join(a, b)] *)
Definition os_path_join (a b : pyval) : M pyval :=
  a' <- as_path a ;;
  b' <- as_path b ;;
  ret (PStr (posix_join a' b')).

(** [os.makedirs(p)]: the directories it made stay when it raises. *)
Definition os_makedirs (v : pyval) : M unit :=
  p <- as_path v ;;
  st <- get_state ;;
  let (r, f') := makedirs_fuel (S (String.length p)) st p in
  put_state (mk_state (cwd st) f' (trace st) (acc st)) ;;;
  match r with
  | Some (e, q) => raise (os_error e q)
  | None => ret tt
  end.

(** Where [os.chdir(p)] goes: the path must name a directory the process
    may enter. *)
Definition chdir_target (s : state) (p : string) : errno + path :=
  match lookup s p with
  | inl e => inl e
  | inr (_, false) => inl ENOTDIR
  | inr (q, true) => if may_search (acc s) q then inr q else inl EACCES
  end.

(** [os.chdir(p)]: the call is recorded, then the directory is entered. *)
Definition os_chdir (v : pyval) : M unit :=
  p <- as_path v ;;
  st <- get_state ;;
  let st1 := mk_state (cwd st) (fs st) (app (trace st) [EvChdir p]) (acc st) in
  match chdir_target st p with
  | inr q => put_state (mk_state (render q) (fs st) (trace st1) (acc st))
  | inl e => put_state st1 ;;; raise (os_error e p)
  end.

Definition rc_ok (r : proc_result) : bool := (returncode r =? 0)%Z.

(** [result.stderr if result.returncode != 0 else None] *)
Definition err_field (r : proc_result) : pyval :=
  if rc_ok r then PNone else PStr (stderr r).

(** The repository name of [main.py] lines 52 and 170:
    [repo_url.split("/")[-1].replace(".git", "")]. *)
Definition repo_name_of (repo_url : string) : string :=
  str_replace ".git" "" (last_elem (split_char "/"%char repo_url)).

Record Response := mk_response {
  status : Z;
  body : pyval
}.

(** ** The handler and its step functions *)

Section Handler.

Variable term : terminal.

(** [await terminal.execute(cmd)]: the command is recorded with the working
    directory it runs in, whether or not the terminal raises. *)
Definition execute (cmd : string) : M proc_result :=
  fun s =>
    let (r, f') := term (trace s) (fs s) (cwd s) cmd in
    (r, mk_state (cwd s) f' (app (trace s) [EvExec (cwd s) cmd]) (acc s)).

(** [str] methods ([split]) exist on strings only. *)
Definition str_method (v : pyval) : M string :=
  match v with
  | PStr s => ret s
  | _ => raise (sq ++ type_name v ++ sq ++ " object has no attribute 'split'")
  end.

Definition check_git_config_body : M pyval :=
  result <- execute "git --version" ;;
  if negb (rc_ok result) then
    ret (PDict [("is_configured", PBool false);
                ("git_installed", PBool false);
                ("error", PStr "Git is not installed")])
  else
    username_result <- execute "git config user.name" ;;
    let username :=
      if rc_ok username_result then PStr (strip (stdout username_result))
      else PNone in
    email_result <- execute "git config user.email" ;;
    let email :=
      if rc_ok email_result then PStr (strip (stdout email_result))
      else PNone in
    ret (PDict [("is_configured", PBool (truthy username && truthy email));
                ("git_installed", PBool true);
                ("username", username);
                ("email", email)]).

Definition check_git_config : M pyval :=
  try_except (check_git_config_body)
    (fun e => ret (PDict [("is_configured", PBool false);
                          ("git_installed", PBool false);
                          ("error", PStr e)])).

Definition clone_repository_body (repo_url directory : pyval) : M pyval :=
  ex <- os_path_exists directory ;;
  (if negb ex then os_makedirs directory else ret tt) ;;;
  url <- str_method repo_url ;;
  let repo_name := repo_name_of url in
  repo_path <- os_path_join directory (PStr repo_name) ;;
  ex' <- os_path_exists repo_path ;;
  if ex' then
    os_chdir repo_path ;;;
    pull_result <- execute "git pull" ;;
    ret (PDict [("success", PBool (rc_ok pull_result));
                ("action", PStr "pulled");
                ("repo_path", repo_path);
                ("output", PStr (stdout pull_result));
                ("error", err_field pull_result)])
  else
    os_chdir directory ;;;
    clone_result <- execute ("git clone " ++ py_str repo_url) ;;
    ret (PDict [("success", PBool (rc_ok clone_result));
                ("action", PStr "cloned");
                ("repo_path", repo_path);
                ("output", PStr (stdout clone_result));
                ("error", err_field clone_result)]).

Definition clone_repository (repo_url directory : pyval) : M pyval :=
  try_except (clone_repository_body repo_url directory)
    (fun e => ret (PDict [("success", PBool false); ("error", PStr e)])).

(** The loop of [stage_changes] over [specific_files]. *)
Fixpoint add_files (files : list pyval) : M (list pyval) :=
  match files with
  | [] => ret []
  | file :: rest =>
      result <- execute ("git add " ++ py_str file) ;;
      results <- add_files rest ;;
      ret (PDict [("file", file);
                  ("success", PBool (rc_ok result));
                  ("output", PStr (stdout result));
                  ("error", err_field result)] :: results)
  end.

(** [all(r["success"] for r in results)] *)
Fixpoint all_success (results : list pyval) : M bool :=
  match results with
  | [] => ret true
  | r :: rs =>
      b <- getitem r "success" ;;
      if truthy b then all_success rs else ret false
  end.

Definition stage_changes_body (repo_path specific_files : pyval) : M pyval :=
  os_chdir repo_path ;;;
  status_before <- execute "git status" ;;
  if truthy specific_files then
    files <- py_iter specific_files ;;
    results <- add_files files ;;
    success <- all_success results ;;
    ret (PDict [("success", PBool success);
                ("action", PStr "staged_specific_files");
                ("files", specific_files);
                ("results", PList results)])
  else
    result <- execute "git add ." ;;
    ret (PDict [("success", PBool (rc_ok result));
                ("action", PStr "staged_all");
                ("output", PStr (stdout result));
                ("error", err_field result)]).

Definition stage_changes (repo_path specific_files : pyval) : M pyval :=
  try_except (stage_changes_body repo_path specific_files)
    (fun e => ret (PDict [("success", PBool false); ("error", PStr e)])).

Definition commit_changes_body (repo_path commit_message : pyval) : M pyval :=
  os_chdir repo_path ;;;
  status_result <- execute "git status" ;;
  if str_contains "nothing to commit" (stdout status_result) then
    ret (PDict [("success", PBool true);
                ("action", PStr "no_changes");
                ("message", PStr "No changes to commit")])
  else
    result <- execute ("git commit -m " ++ dq ++ py_str commit_message ++ dq) ;;
    ret (PDict [("success", PBool (rc_ok result));
                ("action", PStr "committed");
                ("commit_message", commit_message);
                ("output", PStr (stdout result));
                ("error", err_field result)]).

Definition commit_changes (repo_path commit_message : pyval) : M pyval :=
  try_except (commit_changes_body repo_path commit_message)
    (fun e => ret (PDict [("success", PBool false); ("error", PStr e)])).

Definition push_changes_body (repo_path branch_name : pyval) : M pyval :=
  os_chdir repo_path ;;;
  result <- execute ("git push origin " ++ py_str branch_name) ;;
  ret (PDict [("success", PBool (rc_ok result));
              ("action", PStr "pushed");
              ("branch", branch_name);
              ("output", PStr (stdout result));
              ("error", err_field result)]).

Definition push_changes (repo_path branch_name : pyval) : M pyval :=
  try_except (push_changes_body repo_path branch_name)
    (fun e => ret (PDict [("success", PBool false); ("error", PStr e)])).

Definition failure (code : Z) (msg : string) (details : pyval) : M Response :=
  ret (mk_response code (PDict [("success", PBool false);
                                ("message", PStr msg);
                                ("details", details)])).

(** Steps 3 to 5 of [github_push] and its success response, once the
    repository path is known ([clone_detail] is the ["clone"] entry). *)
Definition stage_commit_push (git_config repo_url repo_path clone_detail
    commit_message branch_name specific_files : pyval) : M Response :=
  stage_result <- stage_changes repo_path specific_files ;;
  stage_ok <- getitem stage_result "success" ;;
  if negb (truthy stage_ok) then failure 400 "Failed to stage changes" stage_result
  else
  commit_result <- commit_changes repo_path commit_message ;;
  commit_ok <- getitem commit_result "success" ;;
  if negb (truthy commit_ok) then failure 400 "Failed to commit changes" commit_result
  else
  push_result <- push_changes repo_path branch_name ;;
  push_ok <- getitem push_result "success" ;;
  if negb (truthy push_ok) then failure 400 "Failed to push changes" push_result
  else
  ret (mk_response 200
         (PDict [("success", PBool true);
                 ("message",
                   PStr ("Successfully pushed changes to "
                         ++ py_str (if truthy repo_url then repo_url
                                    else PStr "repository")
                         ++ " on branch " ++ py_str branch_name));
                 ("details",
                   PDict [("git_config", git_config);
                          ("clone", clone_detail);
                          ("stage", stage_result);
                          ("commit", commit_result);
                          ("push", push_result)])])).

(** Steps 1 to 5 of [github_push], once the request fields are read. *)
Definition github_push_steps (repo_url clone_directory commit_message branch_name
    specific_files : pyval) : M Response :=
  git_config <- check_git_config ;;
  is_configured <- getitem git_config "is_configured" ;;
  if negb (truthy is_configured) then
    failure 400 "Git is not properly configured. Please configure Git first."
      git_config
  else
  repo_name <- (if truthy repo_url then
                  url <- str_method repo_url ;; ret (PStr (repo_name_of url))
                else ret PNone) ;;
  repo_path <- (if truthy repo_name then os_path_join clone_directory repo_name
                else ret clone_directory) ;;
  if truthy repo_url then
    clone_result <- clone_repository repo_url clone_directory ;;
    clone_ok <- getitem clone_result "success" ;;
    if negb (truthy clone_ok) then
      failure 400 "Failed to clone repository" clone_result
    else
    repo_path' <- getitem clone_result "repo_path" ;;
    stage_commit_push git_config repo_url repo_path' clone_result
      commit_message branch_name specific_files
  else
    stage_commit_push git_config repo_url repo_path (PStr "Skipped")
      commit_message branch_name specific_files.

(** The route [/github-push]; [data] is [request.json]. *)
Definition github_push (data : pyval) : M Response :=
  try_except
    (repo_url <- py_get data "repo_url" PNone ;;
     cwd0 <- os_getcwd ;;
     clone_directory <- py_get data "clone_directory" cwd0 ;;
     commit_message <- py_get data "commit_message"
                         (PStr "Automated commit via MCP agent") ;;
     branch_name <- py_get data "branch_name" (PStr "main") ;;
     specific_files <- py_get data "specific_files" PNone ;;
     github_push_steps repo_url clone_directory commit_message branch_name
       specific_files)
    (fun e => ret (mk_response 500
                     (PDict [("success", PBool false);
                             ("message", PStr ("An error occurred: " ++ e));
                             ("error", PStr e)]))).

End Handler.

(** * Properties *)

(** ** Observations on runs *)

(** The commands (in order) among a list of events. *)
Definition cmds_of (l : list event) : list string :=
  flat_map (fun ev => match ev with EvExec _ c => [c] | EvChdir _ => [] end) l.

(** Every string a value holds, keys of dicts included. *)
Fixpoint pv_strings (v : pyval) : list string :=
  match v with
  | PStr x => [x]
  | PList l => flat_map pv_strings l
  | PDict kvs => flat_map (fun '(k, x) => k :: pv_strings x) kvs
  | _ => []
  end.

(** A terminal invocation that returns (does not raise). *)
Definition returns (r : string + proc_result) : Prop := exists p, r = inr p.

(** The per-file entry of [stage_changes] for file [x] and add result [r]. *)
Definition file_result (x : pyval) (r : proc_result) : pyval :=
  PDict [("file", x); ("success", PBool (rc_ok r));
         ("output", PStr (stdout r)); ("error", err_field r)].

(** The early return of [commit_changes]. *)
Definition no_changes_result : pyval :=
  PDict [("success", PBool true); ("action", PStr "no_changes");
         ("message", PStr "No changes to commit")].

(** [m] only appends events satisfying [P] to the trace. *)
Definition emits (P : event -> Prop) {A} (m : M A) : Prop :=
  forall s, exists extra, trace (snd (m s)) = app (trace s) extra /\ Forall P extra.

(** Every value [m] returns satisfies [Q]. *)
Definition yields {A} (Q : A -> Prop) (m : M A) : Prop :=
  forall s a, fst (m s) = inr a -> Q a.

(** Events of the pipeline when there is no repository URL: commands other
    than [git clone] and [git pull], and [os.chdir] into [cd] only. *)
Definition no_clone_event (cd : pyval) (ev : event) : Prop :=
  match ev with
  | EvExec _ c => c <> "git pull" /\ prefix "git clone " c = false
  | EvChdir p => PStr p = cd
  end.

(** A 200 response reports the clone step as ["Skipped"]. *)
Definition skipped_on_success (r : Response) : Prop :=
  status r = 200%Z ->
  exists b d, body r = PDict b /\ dict_find "details" b = Some (PDict d) /\
              dict_find "clone" d = Some (PStr "Skipped").




Definition chars := list_ascii_of_string.

(** ** Sample environments *)

(** A terminal on which every command returns, [git status] prints
    [status_out], [git commit ...] exits with [commit_rc] (printing the same
    status text) and [git config user.name] exits with [name_rc]; every
    other command exits 0 with no output. Nothing changes the file system. *)
Definition sample_terminal (status_out : string) (commit_rc name_rc : Z) : terminal :=
  fun _ f _ cmd =>
    (inr (if String.eqb cmd "git status" then mk_proc 0 status_out ""
          else if prefix "git commit " cmd then mk_proc commit_rc status_out ""
          else if String.eqb cmd "git config user.name" then mk_proc name_rc "Ada" ""
          else mk_proc 0 "" ""), f).

Definition quiet_terminal : terminal := sample_terminal "" 0 0.

(** What [git status] prints in a repository whose only changes are
    untracked files; [git commit] then exits 1. *)
Definition untracked_status : string :=
  "Untracked files: notes.txt; nothing added to commit but untracked files present".

Definition untracked_terminal : terminal := sample_terminal untracked_status 1 0.

Definition modified_status : string := "Changes not staged for commit: modified: app.py".

(** [quiet_terminal], except that [git status] prints [modified_status]. *)
Definition modified_terminal : terminal :=
  fun h f c cmd =>
    if String.eqb cmd "git status" then (inr (mk_proc 0 modified_status ""), f)
    else quiet_terminal h f c cmd.

(** A git installation without [user.name]. *)
Definition no_identity_terminal : terminal := sample_terminal "" 0 1.

(** A process that may search and write every directory. *)
Definition open_access : access := mk_access (fun _ => true) (fun _ => true).

(** The process starts in [/work], a directory holding a regular file
    [/work/repo]. *)
Definition work_state : state :=
  mk_state "/work" [(["work"], true); (["work"; "repo"], false)] [] open_access.



(** ** Observations on whole requests *)

(** The response forms of the route: status 200, 400 or 500, and a dict
    body whose ["success"] entry is [True] exactly for status 200. *)
Definition response_shape (r : Response) : Prop :=
  (status r = 200 \/ status r = 400 \/ status r = 500)%Z /\
  exists b, body r = PDict b /\
            dict_find "success" b = Some (PBool (Z.eqb (status r) 200)).

(** Entry [k] of [d] is a dict whose field [flag] is truthy. *)
Definition ok_entry (k flag : string) (d : list (string * pyval)) : Prop :=
  exists sd v, dict_find k d = Some (PDict sd) /\ dict_find flag sd = Some v /\
               truthy v = true.

(** A 200 response reports every step it took as successful. *)
Definition all_steps_ok (r : Response) : Prop :=
  status r = 200%Z ->
  exists b d, body r = PDict b /\ dict_find "success" b = Some (PBool true) /\
    dict_find "details" b = Some (PDict d) /\
    ok_entry "git_config" "is_configured" d /\
    (dict_find "clone" d = Some (PStr "Skipped") \/ ok_entry "clone" "success" d) /\
    ok_entry "stage" "success" d /\ ok_entry "commit" "success" d /\
    ok_entry "push" "success" d.

(** Every event [m] appends satisfies [P], or [m] returns a result
    satisfying [Q]. *)
Definition emits_unless {A} (Q : A -> Prop) (P : event -> Prop) (m : M A) : Prop :=
  forall s, exists extra, trace (snd (m s)) = app (trace s) extra /\
    (Forall P extra \/ exists a, fst (m s) = inr a /\ Q a).

(** [m] never raises and its result satisfies [G]. *)
Definition safe {A} (G : A -> Prop) (m : M A) : Prop :=
  forall s, exists a s', m s = (inr a, s') /\ G a.

(** The result dict of a step: its ["success"] entry is a bool. *)
Definition success_dict (v : pyval) : Prop :=
  exists d b, v = PDict d /\ dict_find "success" d = Some (PBool b).

(** The event runs no command starting with [pre]. *)
Definition not_cmd (pre : string) (ev : event) : Prop :=
  match ev with EvExec _ c => prefix pre c = false | EvChdir _ => True end.

(** The only command starting with [pre] the event may run is [c0]. *)
Definition only_cmd (pre c0 : string) (ev : event) : Prop :=
  match ev with EvExec _ c => prefix pre c = true -> c = c0 | EvChdir _ => True end.

(** The ["message"] entry of a response body. *)
Definition resp_message (r : Response) : option pyval :=
  match body r with PDict b => dict_find "message" b | _ => None end.

(** The response is a 200 or carries one of the messages [msgs]. *)
Definition reached (msgs : list string) (r : Response) : Prop :=
  status r = 200%Z \/ exists m, In m msgs /\ resp_message r = Some (PStr m).

(** The terminal always runs [cmd] with exit status 0, and, if [nonblank],
    prints something that is not blank. *)
Definition answers_ok (term : terminal) (cmd : string) (nonblank : bool) : Prop :=
  forall h f c, exists p, fst (term h f c cmd) = inr p /\ rc_ok p = true /\
                          (nonblank = true -> strip (stdout p) <> "").

Definition config_msg : string :=
  "Git is not properly configured. Please configure Git first.".

(** [quiet_terminal] with a git identity: [user.email] is set too. *)
Definition configured_terminal : terminal :=
  fun h f c cmd =>
    if String.eqb cmd "git config user.email" then (inr (mk_proc 0 "ada@example.org" ""), f)
    else quiet_terminal h f c cmd.

(** A name that is neither [.] nor [..]. *)
Definition plain_name (c : string) : bool :=
  negb (String.eqb c ".") && negb (String.eqb c "..").

(** Where a path with plain components names. *)
Definition location (s : state) (p : string) : path := app (start s p) (components p).

(** A string made of slashes only. *)
Definition all_slashes (z : string) : Prop := Forall (fun a => a = "/"%char) (chars z).

Lemma split_char_nonempty c s : split_char c s <> [].
Proof.
  destruct s as [|a s]; simpl; [discriminate|].
  destruct (Ascii.eqb a c); [discriminate|].
  destruct (split_char c s); discriminate.
Qed.

Lemma split_char_no_sep c s x :
  In x (split_char c s) -> ~ In c (chars x).
Proof.
  revert x. induction s as [|a s IH]; simpl; intros x Hx.
  - destruct Hx as [<-|[]]. simpl. tauto.
  - destruct (Ascii.eqb a c) eqn:E.
    + destruct Hx as [<-|Hx]; [simpl; tauto | auto].
    + destruct (split_char c s) as [|p ps] eqn:Es.
      * destruct Hx as [<-|[]]. simpl. apply Ascii.eqb_neq in E.
        intros [H|[]]. congruence.
      * destruct Hx as [<-|Hx].
        -- simpl. apply Ascii.eqb_neq in E. intros [H|H]; [congruence|].
           apply (IH p); [left; reflexivity | exact H].
        -- apply IH. right. exact Hx.
Qed.

Lemma split_char_no_sep_id c s : ~ In c (chars s) -> split_char c s = [s].
Proof.
  induction s as [|a s IH]; simpl; intros H; [reflexivity|].
  destruct (Ascii.eqb a c) eqn:E.
  - apply Ascii.eqb_eq in E. subst. tauto.
  - rewrite IH by tauto. reflexivity.
Qed.

Lemma split_char_app c x y :
  split_char c (x ++ String c y) = app (split_char c x) (split_char c y).
Proof.
  induction x as [|a x IH]; simpl.
  - rewrite Ascii.eqb_refl. reflexivity.
  - rewrite IH. destruct (Ascii.eqb a c); [reflexivity|].
    destruct (split_char c x) as [|p ps] eqn:E; [exfalso; exact (split_char_nonempty c x E)|].
    reflexivity.
Qed.

Lemma substring_chars n m s a :
  In a (chars (substring n m s)) -> In a (chars s).
Proof.
  revert n m. induction s as [|b s IH]; intros n m H.
  - destruct n, m; simpl in H; exact H.
  - destruct n as [|n].
    + destruct m as [|m]; simpl in *; [tauto|].
      destruct H as [H|H]; [left; exact H|right].
      apply (IH 0 m). exact H.
    + simpl in *. right. apply (IH n m). exact H.
Qed.

Lemma replace_chars fuel old s a :
  In a (chars (replace_fuel fuel old "" s)) -> In a (chars s).
Proof.
  revert s. induction fuel as [|fuel IH]; intros s H; [exact H|].
  destruct s as [|b s]; cbn [replace_fuel] in H; [exact H|].
  destruct ((0 <? String.length old)%nat && prefix old (String b s)).
  - apply substring_chars with (n := String.length old)
      (m := String.length (String b s) - String.length old).
    apply IH. exact H.
  - cbn [chars list_ascii_of_string] in H |- *.
    destruct H as [H|H]; [left; exact H | right; apply IH; exact H].
Qed.

Lemma repo_name_no_slash url : ~ In "/"%char (chars (repo_name_of url)).
Proof.
  unfold repo_name_of, str_replace, last_elem. intros H.
  apply replace_chars in H.
  assert (Hin : In (last (split_char "/"%char url) "") (split_char "/"%char url)).
  { pose proof (split_char_nonempty "/"%char url) as Hne.
    rewrite (app_removelast_last "" Hne) at 2. apply in_or_app. right. left. reflexivity. }
  exact (split_char_no_sep _ _ _ Hin H).
Qed.

Lemma str_append_assoc x y z : (x ++ y) ++ z = x ++ (y ++ z).
Proof. induction x as [|a x IH]; simpl; [reflexivity | rewrite IH; reflexivity]. Qed.

Lemma components_app_slash x y :
  components (x ++ String "/" y) = app (components x) (components y).
Proof. unfold components. rewrite split_char_app. apply filter_app. Qed.

Lemma components_component name :
  name <> "" -> ~ In "/"%char (chars name) -> components name = [name].
Proof.
  intros Hne Hs. unfold components. rewrite split_char_no_sep_id by exact Hs.
  simpl. destruct (String.eqb name "") eqn:E; [apply String.eqb_eq in E; congruence|].
  reflexivity.
Qed.

Lemma ends_with_slash_inv d : ends_with_slash d = true -> exists x, d = x ++ "/".
Proof.
  induction d as [|a d IH]; simpl; [discriminate|].
  destruct d as [|b d'].
  - intros H. apply Ascii.eqb_eq in H. subst. exists "". reflexivity.
  - intros H. destruct (IH H) as [x Hx]. exists (String a x). rewrite Hx. reflexivity.
Qed.

Lemma starts_with_slash_app d y :
  d <> "" -> starts_with_slash (d ++ y) = starts_with_slash d.
Proof. destruct d; [congruence | reflexivity]. Qed.

Lemma component_no_lead_slash name :
  name <> "" -> ~ In "/"%char (chars name) -> starts_with_slash name = false.
Proof.
  destruct name as [|a n]; [congruence|]. intros _ H. simpl.
  apply Ascii.eqb_neq. intros ->. apply H. left. reflexivity.
Qed.

Lemma posix_join_component d name :
  name <> "" -> ~ In "/"%char (chars name) ->
  components (posix_join d name) = app (components d) [name] /\
  starts_with_slash (posix_join d name) = starts_with_slash d /\
  posix_join d name <> "".
Proof.
  intros Hne Hs. unfold posix_join.
  rewrite (component_no_lead_slash name Hne Hs).
  destruct (String.eqb d "") eqn:Ed; simpl.
  { apply String.eqb_eq in Ed. subst. rewrite components_component by assumption.
    split; [reflexivity|]. split; [|exact Hne].
    apply component_no_lead_slash; assumption. }
  assert (Hd : d <> "") by (apply String.eqb_neq; exact Ed).
  destruct (ends_with_slash d) eqn:Ee; simpl.
  - destruct (ends_with_slash_inv d Ee) as [x ->].
    rewrite str_append_assoc. simpl.
    rewrite !components_app_slash, (components_component name) by assumption.
    simpl. rewrite app_nil_r.
    split; [reflexivity|]. split.
    + rewrite <- (starts_with_slash_app (x ++ "/") name Hd), str_append_assoc. reflexivity.
    + destruct x; discriminate.
  - rewrite components_app_slash, (components_component name) by assumption.
    split; [reflexivity|]. split.
    + apply starts_with_slash_app; exact Hd.
    + destruct d; [congruence|discriminate].
Qed.

Lemma str_append_empty x : x ++ "" = x.
Proof. induction x as [|a x IH]; simpl; [reflexivity | rewrite IH; reflexivity]. Qed.

(** [os.path.join(d, "")] names the same place as [d]. *)
Lemma posix_join_empty d :
  d <> "" ->
  components (posix_join d "") = components d /\
  starts_with_slash (posix_join d "") = starts_with_slash d /\
  posix_join d "" <> "" /\ ends_with_slash (posix_join d "") = true.
Proof.
  intros Hd. unfold posix_join. simpl.
  destruct (String.eqb d "") eqn:Ed; [apply String.eqb_eq in Ed; contradiction|].
  destruct (ends_with_slash d) eqn:Ee; simpl.
  - rewrite str_append_empty. auto.
  - rewrite components_app_slash. simpl. rewrite app_nil_r.
    split; [reflexivity|]. split; [apply starts_with_slash_app; exact Hd|].
    split; [destruct d; [congruence|discriminate]|].
    clear. induction d as [|a d IH]; [reflexivity|].
    simpl. destruct (d ++ "/") eqn:E; [destruct d; discriminate | exact IH].
Qed.

Lemma path_eqb_eq p q : path_eqb p q = true -> p = q.
Proof.
  revert q. induction p as [|x p IH]; intros [|y q]; simpl; try discriminate; [reflexivity|].
  intros H. apply andb_true_iff in H as [H1 H2].
  apply String.eqb_eq in H1. rewrite H1, (IH q H2). reflexivity.
Qed.

Lemma path_eqb_refl q : path_eqb q q = true.
Proof. induction q as [|x q IH]; simpl; [reflexivity|]. rewrite String.eqb_refl. exact IH. Qed.

Lemma fs_exists_app_l f g q : fs_exists f q = true -> fs_exists (app f g) q = true.
Proof.
  destruct q as [|x q]; [reflexivity|]. unfold fs_exists.
  rewrite existsb_app. intros ->. reflexivity.
Qed.

Lemma fs_exists_app_longer f g q :
  fs_exists f q = false -> (forall a, In a (map fst g) -> length a < length q)%nat ->
  fs_exists (app f g) q = false.
Proof.
  intros Hf Hg. destruct q as [|x q]; [discriminate|]. unfold fs_exists in *.
  rewrite existsb_app, Hf. simpl.
  match goal with |- existsb ?p g = false => destruct (existsb p g) eqn:E; [|reflexivity] end.
  apply existsb_exists in E as [[a b] [Hin Heq]]. apply path_eqb_eq in Heq.
  simpl in Heq. subst a.
  specialize (Hg (x :: q) (in_map fst _ _ Hin)). simpl in Hg. lia.
Qed.

Lemma fs_is_dir_exists f q : fs_is_dir f q = true -> fs_exists f q = true.
Proof.
  destruct q as [|x q]; [reflexivity|]. unfold fs_is_dir, fs_exists.
  intros H. apply existsb_exists in H as [e [Hin He]].
  apply andb_true_iff in He as [He _].
  apply existsb_exists. exists e. auto.
Qed.

(** *** Lookups *)

Lemma length_removelast_le {A} (l : list A) : (length (removelast l) <= length l)%nat.
Proof.
  induction l as [|x l IH]; [reflexivity|].
  destruct l as [|y l]; simpl in *; lia.
Qed.

Lemma length_removelast_cons {A} (l : list A) :
  l <> [] -> S (length (removelast l)) = length l.
Proof.
  induction l as [|x l IH]; intros H; [congruence|].
  destruct l as [|y l]; [reflexivity|].
  simpl in *. rewrite IH by discriminate. reflexivity.
Qed.

Lemma lookup_step_length s cur c q b :
  lookup_step s cur c = inr (q, b) -> (length q <= S (length cur))%nat.
Proof.
  unfold lookup_step. intros H.
  destruct (negb (may_search (acc s) cur)); [discriminate|].
  destruct (String.eqb c "."); [injection H as <- _; lia|].
  destruct (String.eqb c ".."); [injection H as <- _; pose proof (length_removelast_le cur); lia|].
  destruct (negb (fs_is_dir (fs s) cur)); [discriminate|].
  destruct (fs_exists (fs s) (app cur [c])); [|discriminate].
  injection H as <- _. rewrite length_app. simpl. lia.
Qed.

Lemma walk_length s cur cs q b :
  walk s cur cs = inr (q, b) -> (length q <= length cur + length cs)%nat.
Proof.
  revert cur. induction cs as [|c cs IH]; intros cur H; simpl in H.
  - injection H as <- _. lia.
  - destruct (lookup_step s cur c) as [e|[q1 b1]] eqn:E; [discriminate|].
    apply lookup_step_length in E.
    destruct cs as [|c' cs'].
    + injection H as <- _. simpl. lia.
    + destruct b1; [|discriminate]. apply IH in H. simpl in *. lia.
Qed.

(** Through plain names, a lookup goes down one level per component and
    reaches only places the file system holds. *)
Lemma walk_plain s cur cs q b :
  cs <> [] -> forallb plain_name cs = true -> walk s cur cs = inr (q, b) ->
  q = app cur cs /\ fs_exists (fs s) q = true.
Proof.
  revert cur. induction cs as [|c cs IH]; intros cur Hne Hp H; [congruence|].
  simpl in Hp. apply andb_true_iff in Hp as [Hc Hp].
  unfold plain_name in Hc. apply andb_true_iff in Hc as [Hc1 Hc2].
  apply negb_true_iff in Hc1, Hc2.
  simpl in H. unfold lookup_step in H. rewrite Hc1, Hc2 in H.
  destruct (negb (may_search (acc s) cur)); [discriminate|].
  destruct (negb (fs_is_dir (fs s) cur)); [discriminate|].
  destruct (fs_exists (fs s) (app cur [c])) eqn:Ex; [|discriminate].
  destruct cs as [|c' cs'].
  - injection H as <- _. split; [reflexivity | exact Ex].
  - destruct (fs_is_dir (fs s) (app cur [c])); [|discriminate].
    destruct (IH (app cur [c]) ltac:(discriminate) Hp H) as [-> Hq].
    split; [rewrite <- app_assoc; reflexivity | exact Hq].
Qed.

Lemma walk_snoc s cur cs c r :
  walk s cur (app cs [c]) = inr r -> exists q, walk s cur cs = inr (q, true).
Proof.
  revert cur. induction cs as [|x cs IH]; intros cur H; [eexists; reflexivity|].
  simpl in H. destruct (lookup_step s cur x) as [e|[q1 b1]] eqn:E; [discriminate|].
  assert (H' : b1 = true /\ walk s q1 (app cs [c]) = inr r).
  { destruct cs as [|y cs']; simpl in H |- *; destruct b1; try discriminate;
      (split; [reflexivity | exact H]). }
  destruct H' as [-> H'].
  destruct (IH q1 H') as [q Hq]. simpl. rewrite E.
  destruct cs as [|y cs']; [simpl in Hq; injection Hq as <-; eexists; reflexivity|].
  eexists. exact Hq.
Qed.

Lemma start_same s p1 p2 :
  starts_with_slash p1 = starts_with_slash p2 -> start s p1 = start s p2.
Proof. unfold start. intros ->. reflexivity. Qed.

(** If the repository path [d/name] can be looked up, so can [d]. *)
Lemma lookup_parent s d name r :
  ~ In "/"%char (chars name) -> d <> "" ->
  lookup s (posix_join d name) = inr r -> exists q b, lookup s d = inr (q, b).
Proof.
  intros Hs Hd H. unfold lookup in *.
  destruct (String.eqb d "") eqn:Ed; [apply String.eqb_eq in Ed; contradiction|].
  destruct (String.eqb name "") eqn:En.
  - apply String.eqb_eq in En. subst name.
    destruct (posix_join_empty d Hd) as [Hc [Hst [Hne He]]].
    destruct (String.eqb (posix_join d "") "") eqn:Ej; [discriminate|].
    rewrite Hc, (start_same s _ d Hst), He in H.
    destruct (walk s (start s d) (components d)) as [e|[q [|]]]; try discriminate.
    eauto.
  - apply String.eqb_neq in En.
    destruct (posix_join_component d name En Hs) as [Hc [Hst Hne]].
    destruct (String.eqb (posix_join d name) "") eqn:Ej;
      [apply String.eqb_eq in Ej; contradiction|].
    rewrite Hc, (start_same s _ d Hst) in H.
    destruct (walk s (start s d) (app (components d) [name])) as [e|w] eqn:Ew;
      [destruct (ends_with_slash _); discriminate|].
    destruct (walk_snoc _ _ _ _ _ Ew) as [q Hq]. rewrite Hq. eauto.
Qed.

(** [d] with a slash appended is looked up as [d] when [d] is a directory. *)
Lemma chdir_target_join_empty s d q :
  chdir_target s d = inr q -> chdir_target s (posix_join d "") = inr q.
Proof.
  unfold chdir_target, lookup. intros H.
  destruct (String.eqb d "") eqn:Ed; [discriminate|].
  apply String.eqb_neq in Ed.
  destruct (posix_join_empty d Ed) as [Hc [Hst [Hne He]]].
  destruct (String.eqb (posix_join d "") "") eqn:Ej; [apply String.eqb_eq in Ej; contradiction|].
  rewrite Hc, (start_same s _ d Hst).
  destruct (walk s (start s d) (components d)) as [e|[q' [|]]]; try exact H.
  destruct (ends_with_slash d); discriminate.
Qed.

Lemma chdir_target_lookup s p q :
  chdir_target s p = inr q -> lookup s p = inr (q, true).
Proof.
  unfold chdir_target. destruct (lookup s p) as [e|[q' [|]]]; try discriminate.
  destruct (may_search (acc s) q'); [intros H; injection H as ->; reflexivity | discriminate].
Qed.

Lemma path_exists_lookup s p :
  path_exists s p = true -> exists q b, lookup s p = inr (q, b).
Proof.
  unfold path_exists. destruct (lookup s p) as [e|[q b]]; [discriminate|eauto].
Qed.

Lemma lookup_plain s p q b :
  components p <> [] -> forallb plain_name (components p) = true ->
  lookup s p = inr (q, b) -> q = location s p /\ fs_exists (fs s) q = true.
Proof.
  intros Hne Hp. unfold lookup, location.
  destruct (String.eqb p "") eqn:Ep; [discriminate|].
  destruct (walk s (start s p) (components p)) as [e|[q' b']] eqn:Ew; [discriminate|].
  intros H. assert (q' = q).
  { destruct b'; [congruence|]. destruct (ends_with_slash p); congruence. }
  subst q'. exact (walk_plain _ _ _ _ _ Hne Hp Ew).
Qed.

(** *** [mkdir] and [os.makedirs] only add entries, each no deeper than the
    path they were asked for. *)

Lemma mkdir_appends s p f' :
  mkdir s p = inr f' ->
  exists e, f' = app (fs s) [e] /\
    (length (fst e) <= length (start s p) + length (components p))%nat.
Proof.
  unfold mkdir. destruct (String.eqb p "") eqn:Ep; [discriminate|].
  destruct (components p) as [|c0 cs0] eqn:Ec; [discriminate|].
  rewrite <- Ec.
  destruct (walk s (start s p) (removelast (components p))) as [e|[par [|]]] eqn:Ew;
    try discriminate.
  repeat match goal with |- context [if ?b then _ else _] => destruct b; [try discriminate|] end.
  intros H. injection H as <-. eexists. split; [reflexivity|].
  apply walk_length in Ew. simpl. rewrite length_app. simpl.
  pose proof (length_removelast_cons (components p) ltac:(rewrite Ec; discriminate)).
  lia.
Qed.

Lemma split_last_slash_spec p h t :
  split_last_slash p = (h, t) -> p = h ++ t /\ (h = "" \/ ends_with_slash h = true).
Proof.
  revert h t. induction p as [|a p IH]; intros h t H; simpl in H.
  - injection H as <- <-. auto.
  - destruct (split_last_slash p) as [h' t'] eqn:E.
    destruct (IH h' t' eq_refl) as [Hp Hh].
    destruct (String.eqb h' "") eqn:Eh.
    + apply String.eqb_eq in Eh. subst h'.
      destruct (Ascii.eqb a "/"%char) eqn:Ea; injection H as <- <-.
      * simpl. rewrite Hp. split; [reflexivity|]. right. exact Ea.
      * auto.
    + injection H as <- <-. simpl. rewrite Hp. split; [reflexivity|].
      destruct Hh as [Hh|Hh]; [apply String.eqb_neq in Eh; contradiction|].
      right. simpl. destruct h'; [discriminate|exact Hh].
Qed.

Lemma components_all_slashes z : all_slashes z -> components z = [].
Proof.
  induction z as [|a z IH]; intros H; [reflexivity|].
  inversion H as [|? ? Ha Hz]; subst.
  change (String "/" z) with ("" ++ String "/" z).
  rewrite components_app_slash, IH by exact Hz. reflexivity.
Qed.

Lemma components_app_slashes y z : all_slashes z -> components (y ++ z) = components y.
Proof.
  destruct z as [|a z]; intros H; [rewrite str_append_empty; reflexivity|].
  inversion H as [|? ? Ha Hz]; subst.
  rewrite components_app_slash, (components_all_slashes z Hz). apply app_nil_r.
Qed.

Lemma rstrip_slash_spec x : exists z, x = rstrip_slash x ++ z /\ all_slashes z.
Proof.
  induction x as [|a x [z [Hx Hz]]]; [exists ""; split; [reflexivity|constructor]|].
  simpl. destruct (String.eqb (rstrip_slash x) "" && Ascii.eqb a "/"%char) eqn:E.
  - apply andb_true_iff in E as [E1 E2]. apply String.eqb_eq in E1.
    apply Ascii.eqb_eq in E2. subst a.
    exists (String "/" x). split; [reflexivity|].
    rewrite Hx, E1. constructor; [reflexivity|exact Hz].
  - exists z. simpl. rewrite <- Hx. auto.
Qed.

Lemma components_app_le x y :
  (x = "" \/ ends_with_slash x = true) ->
  (length (components x) <= length (components (x ++ y)))%nat.
Proof.
  intros [->|H]; [simpl; unfold components; simpl; lia|].
  destruct (ends_with_slash_inv x H) as [x' ->].
  rewrite str_append_assoc. simpl. rewrite !components_app_slash. simpl.
  rewrite app_nil_r, length_app. lia.
Qed.

(** The head of [posixpath.split(p)] begins like [p] and has no more
    components. *)
Lemma posix_split_head p h t :
  posix_split p = (h, t) -> h <> "" ->
  starts_with_slash h = starts_with_slash p /\
  (length (components h) <= length (components p))%nat.
Proof.
  unfold posix_split. destruct (split_last_slash p) as [h0 t0] eqn:E.
  destruct (split_last_slash_spec _ _ _ E) as [Hp Hh0].
  destruct (rstrip_slash_spec h0) as [z [Hz Hzs]].
  assert (Hc : (length (components h0) <= length (components p))%nat)
    by (rewrite Hp; apply components_app_le; exact Hh0).
  destruct (negb (String.eqb h0 "") && negb (String.eqb (rstrip_slash h0) "")) eqn:Eb;
    intros H Hne; injection H as <- <-.
  - apply andb_true_iff in Eb as [E1 E2]. apply negb_true_iff, String.eqb_neq in E1, E2.
    split.
    + rewrite Hp, starts_with_slash_app by exact E1.
      rewrite Hz at 2. rewrite starts_with_slash_app by exact E2. reflexivity.
    + rewrite Hz in Hc. rewrite components_app_slashes in Hc by exact Hzs. exact Hc.
  - split; [rewrite Hp; symmetry; apply starts_with_slash_app; exact Hne | exact Hc].
Qed.

Lemma posix_split_empty : posix_split "" = ("", "").
Proof. reflexivity. Qed.

Lemma makedirs_appends n s p :
  exists g, snd (makedirs_fuel n s p) = app (fs s) g /\
    forall e, In e g -> (length (fst e) <= length (start s p) + length (components p))%nat.
Proof.
  revert s p. induction n as [|n IH]; intros s p.
  - simpl. destruct (mkdir s p) as [e|f'] eqn:E.
    + exists []. rewrite app_nil_r. split; [reflexivity|intros _ []].
    + destruct (mkdir_appends _ _ _ E) as [e [-> He]]. exists [e].
      split; [reflexivity|]. intros e' [<-|[]]. exact He.
  - assert (Hmk : forall s1, start s1 p = start s p ->
              exists g, snd (match mkdir s1 p with
                             | inl e => (Some (e, p), fs s1) | inr f' => (None, f') end)
                        = app (fs s1) g /\
              forall e, In e g ->
                (length (fst e) <= length (start s p) + length (components p))%nat).
    { intros s1 Hst. destruct (mkdir s1 p) as [e|f'] eqn:E.
      + exists []. rewrite app_nil_r. split; [reflexivity|intros _ []].
      + destruct (mkdir_appends _ _ _ E) as [e [-> He]]. exists [e].
        split; [reflexivity|]. intros e' [<-|[]]. rewrite <- Hst. exact He. }
    cbn [makedirs_fuel].
    destruct (posix_split p) as [h t] eqn:E1.
    assert (Hht : exists head tail,
               (if String.eqb t "" then posix_split h else (h, t)) = (head, tail) /\
               (head <> "" -> starts_with_slash head = starts_with_slash p /\
                  (length (components head) <= length (components p))%nat)).
    { destruct (String.eqb t "").
      - destruct (posix_split h) as [h2 t2] eqn:E2. exists h2, t2. split; [reflexivity|].
        intros Hne. assert (Hh : h <> "") by (intros ->; rewrite posix_split_empty in E2;
                                              injection E2 as <- _; contradiction).
        destruct (posix_split_head _ _ _ E2 Hne) as [A1 A2].
        destruct (posix_split_head _ _ _ E1 Hh) as [B1 B2]. split; [congruence|lia].
      - exists h, t. split; [reflexivity|]. exact (posix_split_head _ _ _ E1). }
    destruct Hht as [head [tail [Eht Hhead]]]. rewrite Eht.
    destruct (negb (String.eqb head "") && negb (String.eqb tail "") &&
              negb (path_exists s head)) eqn:Eb.
    + apply andb_true_iff in Eb as [Eb _]. apply andb_true_iff in Eb as [Eb _].
      apply negb_true_iff, String.eqb_neq in Eb.
      destruct (Hhead Eb) as [Hs1 Hl1].
      destruct (makedirs_fuel n s head) as [r f1] eqn:Em.
      destruct (IH s head) as [g1 [Hg1 Hb1]]. rewrite Em in Hg1. simpl in Hg1. subst f1.
      assert (Hb1' : forall e, In e g1 ->
                (length (fst e) <= length (start s p) + length (components p))%nat).
      { intros e He. specialize (Hb1 e He). rewrite (start_same s head p Hs1) in Hb1. lia. }
      destruct (match r with Some (e, _) => negb (errno_eqb e EEXIST) | None => false end).
      { exists g1. auto. }
      destruct (String.eqb tail "."). { exists g1. auto. }
      destruct (Hmk (mk_state (cwd s) (app (fs s) g1) (trace s) (acc s)) eq_refl)
        as [g2 [Hg2 Hb2]].
      exists (app g1 g2). rewrite Hg2, app_assoc. split; [reflexivity|].
      intros e He. apply in_app_or in He as [He|He]; auto.
    + destruct (Hmk s eq_refl) as [g [Hg Hb]]. exists g. auto.
Qed.

Lemma os_path_exists_str p s : os_path_exists (PStr p) s = (inr (path_exists s p), s).
Proof. reflexivity. Qed.

Lemma os_chdir_str p s :
  os_chdir (PStr p) s =
    match chdir_target s p with
    | inr q => (inr tt, mk_state (render q) (fs s) (app (trace s) [EvChdir p]) (acc s))
    | inl e => (inl (os_error e p), mk_state (cwd s) (fs s) (app (trace s) [EvChdir p]) (acc s))
    end.
Proof.
  cbv beta iota zeta delta [os_chdir bind as_path get_state ret raise put_state].
  destruct (chdir_target s p); reflexivity.
Qed.

Lemma os_makedirs_str d s :
  exists r g, os_makedirs (PStr d) s = (r, mk_state (cwd s) (app (fs s) g) (trace s) (acc s)) /\
    forall e, In e g -> (length (fst e) <= length (start s d) + length (components d))%nat.
Proof.
  cbv beta iota zeta delta [os_makedirs bind as_path get_state ret raise put_state].
  destruct (makedirs_appends (S (String.length d)) s d) as [g [Hg Hb]].
  destruct (makedirs_fuel (S (String.length d)) s d) as [r f'].
  simpl in Hg. subst f'.
  destruct r as [[e q]|]; do 2 eexists; (split; [reflexivity | exact Hb]).
Qed.

Lemma state_eta s : mk_state (cwd s) (app (fs s) []) (trace s) (acc s) = s.
Proof. destruct s. simpl. rewrite app_nil_r. reflexivity. Qed.

Lemma os_makedirs_empty s : exists e s', os_makedirs (PStr "") s = (inl e, s').
Proof. do 2 eexists. reflexivity. Qed.

Lemma lookup_location s p q b :
  forallb plain_name (components p) = true -> lookup s p = inr (q, b) -> q = location s p.
Proof.
  intros Hp Hl. destruct (components p) as [|c cs] eqn:Ec.
  - unfold lookup, location in *. rewrite Ec in *.
    destruct (String.eqb p ""); [discriminate|]. simpl in Hl.
    injection Hl as <- _. rewrite app_nil_r. reflexivity.
  - rewrite <- Ec in Hp. apply (lookup_plain s p q b); [congruence|exact Hp|exact Hl].
Qed.

Lemma location_join s d name :
  d <> "" -> name <> "" -> ~ In "/"%char (chars name) ->
  location s (posix_join d name) = app (location s d) [name].
Proof.
  intros Hd Hn Hs. destruct (posix_join_component d name Hn Hs) as [Hc [Hst _]].
  unfold location. rewrite Hc, (start_same s _ d Hst), app_assoc. reflexivity.
Qed.

(** A plain name that was not on disk is still missing after [os.makedirs]
    made [d] and its ancestors. *)
Lemma absent_after_makedirs s g d name :
  d <> "" -> name <> "" -> ~ In "/"%char (chars name) -> plain_name name = true ->
  forallb plain_name (components d) = true ->
  (forall e, In e g -> (length (fst e) <= length (start s d) + length (components d))%nat) ->
  fs_exists (fs s) (location s (posix_join d name)) = false ->
  path_exists (mk_state (cwd s) (app (fs s) g) (trace s) (acc s)) (posix_join d name) = false.
Proof.
  intros Hd Hn Hs Hpn Hpd Hg Hloc.
  destruct (posix_join_component d name Hn Hs) as [Hc _].
  unfold path_exists.
  destruct (lookup _ (posix_join d name)) as [e|[q b]] eqn:Hl; [reflexivity|].
  exfalso.
  destruct (lookup_plain _ _ q b ltac:(rewrite Hc; destruct (components d); discriminate)
              ltac:(rewrite Hc, forallb_app, Hpd; simpl; rewrite Hpn; reflexivity) Hl)
    as [Hq Hex].
  change (location (mk_state (cwd s) (app (fs s) g) (trace s) (acc s)) (posix_join d name))
    with (location s (posix_join d name)) in Hq.
  rewrite Hq in Hex. simpl in Hex.
  rewrite fs_exists_app_longer in Hex; [discriminate|exact Hloc|].
  intros a Ha. apply in_map_iff in Ha as [e [<- He]]. specialize (Hg e He).
  rewrite location_join by assumption. unfold location. rewrite !length_app. simpl. lia.
Qed.


Lemma os_makedirs_trace v s : trace (snd (os_makedirs v s)) = trace s.
Proof.
  destruct v; try reflexivity.
  destruct (os_makedirs_str s0 s) as [r [g [-> _]]]. reflexivity.
Qed.

Ltac trace_eq :=  simpl; rewrite <- ?app_assoc; try reflexivity.

Section Emits.
Variable P : event -> Prop.

Lemma emits_ret {A} (a : A) : emits P (ret a).
Proof. intros s. exists []. split; [symmetry; apply app_nil_r | constructor]. Qed.

Lemma emits_raise {A} msg : emits P (@raise A msg).
Proof. intros s. exists []. split; [symmetry; apply app_nil_r | constructor]. Qed.

Lemma emits_get_state : emits P get_state.
Proof. intros s. exists []. split; [symmetry; apply app_nil_r | constructor]. Qed.

Lemma emits_bind {A B} (m : M A) (k : A -> M B) :
  emits P m -> (forall a, emits P (k a)) -> emits P (bind m k).
Proof.
  intros Hm Hk s. unfold bind.
  destruct (Hm s) as [e1 [H1 F1]].
  destruct (m s) as [[e|a] s1] eqn:E; simpl in *.
  - exists e1. auto.
  - destruct (Hk a s1) as [e2 [H2 F2]]. exists (app e1 e2).
    split; [rewrite H2, H1, app_assoc; reflexivity | apply Forall_app; auto].
Qed.

Lemma emits_try {A} (b : M A) h :
  emits P b -> (forall e, emits P (h e)) -> emits P (try_except b h).
Proof.
  intros Hb Hh s. unfold try_except.
  destruct (Hb s) as [e1 [H1 F1]].
  destruct (b s) as [[e|a] s1] eqn:E; simpl in *.
  - destruct (Hh e s1) as [e2 [H2 F2]]. exists (app e1 e2).
    split; [rewrite H2, H1, app_assoc; reflexivity | apply Forall_app; auto].
  - exists e1. auto.
Qed.

Lemma emits_execute term cmd :
  (forall c, P (EvExec c cmd)) -> emits P (execute term cmd).
Proof.
  intros HP s. unfold execute. destruct (term _ _ _ _) as [r f'].
  exists [EvExec (cwd s) cmd]. split; [reflexivity | repeat constructor; auto].
Qed.

Lemma emits_chdir v :
  (forall p, v = PStr p -> P (EvChdir p)) -> emits P (os_chdir v).
Proof.
  intros HP s. destruct v; try (exists []; split; [symmetry; apply app_nil_r | constructor]).
  rewrite os_chdir_str. destruct (chdir_target s s0);
    simpl; (exists [EvChdir s0]; split; [reflexivity | repeat constructor; auto]).
Qed.

Lemma emits_no_trace {A} (m : M A) :
  (forall s, trace (snd (m s)) = trace s) -> emits P m.
Proof.
  intros H s. exists []. rewrite H, app_nil_r. split; [reflexivity | constructor].
Qed.

End Emits.

Ltac no_trace := apply emits_no_trace; intros s;
  repeat match goal with
         | |- context [match ?x with _ => _ end] =>
             lazymatch x with context [match _ with _ => _ end] => fail | _ => destruct x end
         | |- _ => progress (cbv beta iota zeta delta [bind ret raise get_state put_state
                     as_path py_get getitem os_getcwd os_path_exists os_path_join
                     str_method py_iter] in *; simpl)
         end; reflexivity.

Lemma emits_os_makedirs P v : emits P (os_makedirs v).
Proof. apply emits_no_trace. apply os_makedirs_trace. Qed.
Lemma emits_as_path P v : emits P (as_path v).
Proof. no_trace. Qed.
Lemma emits_py_iter P v : emits P (py_iter v).
Proof. no_trace. Qed.
Lemma emits_getitem P v k : emits P (getitem v k).
Proof. no_trace. Qed.
Lemma emits_py_get P v k d : emits P (py_get v k d).
Proof. no_trace. Qed.
Lemma emits_str_method P v : emits P (str_method v).
Proof. no_trace. Qed.
Lemma emits_os_path_exists P v : emits P (os_path_exists v).
Proof. no_trace. Qed.
Lemma emits_os_path_join P a b : emits P (os_path_join a b).
Proof. no_trace. Qed.
Lemma emits_os_getcwd P : emits P os_getcwd.
Proof. no_trace. Qed.

Lemma emits_all_success P rs : emits P (all_success rs).
Proof.
  apply emits_no_trace. induction rs as [|r rs IH]; intros s; [reflexivity|].
  cbn [all_success]. unfold bind, getitem.
  destruct r; try reflexivity. destruct (dict_find "success" l); [|reflexivity].
  unfold ret. destruct (truthy p); [apply IH|reflexivity].
Qed.

Lemma emits_add_files P term files :
  (forall c x, P (EvExec c ("git add " ++ py_str x))) -> emits P (add_files term files).
Proof.
  intros HP. induction files as [|x files IH]; cbn [add_files].
  - apply emits_ret.
  - apply emits_bind; [apply emits_execute; auto | intros r].
    apply emits_bind; [exact IH | intros rs]. apply emits_ret.
Qed.

Lemma emits_bind_ret P {A B} (a : A) (k : A -> M B) :
  emits P (k a) -> emits P (bind (ret a) k).
Proof. intros H. exact H. Qed.

Ltac emits_auto :=
  repeat first
    [ progress cbv zeta
    | apply emits_try; [|intro]
    | apply emits_ret | apply emits_raise | apply emits_get_state
    | apply emits_os_makedirs | apply emits_all_success | apply emits_as_path
    | apply emits_py_iter | apply emits_getitem | apply emits_py_get
    | apply emits_str_method | apply emits_os_path_exists | apply emits_os_path_join
    | apply emits_os_getcwd
    | apply emits_add_files; intros ? ?
    | apply emits_execute; intro
    | apply emits_chdir; intros ? ?
    | match goal with
      | |- emits _ (if ?b then _ else _) => destruct b
      | |- emits _ (match ?x with _ => _ end) => destruct x
      end
    | apply emits_bind_ret
    | apply emits_bind; [|intro] ].

Lemma emits_stage P term rp files :
  (forall p, rp = PStr p -> P (EvChdir p)) ->
  (forall c, P (EvExec c "git status")) ->
  (forall c, P (EvExec c "git add .")) ->
  (forall c x, P (EvExec c ("git add " ++ py_str x))) ->
  emits P (stage_changes term rp files).
Proof.
  intros H1 H2 H3 H4. unfold stage_changes, stage_changes_body. emits_auto; auto.
Qed.

Lemma emits_commit P term rp msg :
  (forall p, rp = PStr p -> P (EvChdir p)) ->
  (forall c, P (EvExec c "git status")) ->
  (forall c, P (EvExec c ("git commit -m " ++ dq ++ py_str msg ++ dq))) ->
  emits P (commit_changes term rp msg).
Proof. intros H1 H2 H3. unfold commit_changes, commit_changes_body. emits_auto; auto. Qed.

Lemma emits_push P term rp br :
  (forall p, rp = PStr p -> P (EvChdir p)) ->
  (forall c, P (EvExec c ("git push origin " ++ py_str br))) ->
  emits P (push_changes term rp br).
Proof. intros H1 H2. unfold push_changes, push_changes_body. emits_auto; auto. Qed.

Lemma emits_check P term :
  (forall c, P (EvExec c "git --version")) ->
  (forall c, P (EvExec c "git config user.name")) ->
  (forall c, P (EvExec c "git config user.email")) ->
  emits P (check_git_config term).
Proof. intros H1 H2 H3. unfold check_git_config, check_git_config_body. emits_auto; auto. Qed.

Lemma github_push_dict term kvs s :
  github_push term (PDict kvs) s =
  if negb (fs_is_dir (fs s) (cwd_path s)) then
    (inr (mk_response 500
            (PDict [("success", PBool false);
                    ("message", PStr ("An error occurred: " ++ strerror ENOENT));
                    ("error", PStr (strerror ENOENT))])), s)
  else
  try_except
    (github_push_steps term
       (match dict_find "repo_url" kvs with Some v => v | None => PNone end)
       (match dict_find "clone_directory" kvs with Some v => v | None => PStr (cwd s) end)
       (match dict_find "commit_message" kvs with Some v => v
        | None => PStr "Automated commit via MCP agent" end)
       (match dict_find "branch_name" kvs with Some v => v | None => PStr "main" end)
       (match dict_find "specific_files" kvs with Some v => v | None => PNone end))
    (fun e => ret (mk_response 500
                     (PDict [("success", PBool false);
                             ("message", PStr ("An error occurred: " ++ e));
                             ("error", PStr e)]))) s.
Proof.
  unfold github_push. cbv beta iota delta [try_except bind py_get os_getcwd ret].
  destruct (fs_is_dir (fs s) (cwd_path s)); reflexivity.
Qed.

Ltac emits_steps :=
  repeat first
    [ progress emits_auto
    | apply emits_bind_ret
    | apply emits_check; intro
    | apply emits_stage; intros ? ?
    | apply emits_commit; intros ? ?
    | apply emits_push; intros ? ?
    | progress unfold stage_commit_push, failure ].

Lemma emits_steps_no_url term cd msg br sf :
  emits (no_clone_event cd) (github_push_steps term PNone cd msg br sf).
Proof.
  unfold github_push_steps. cbv beta iota delta [truthy].
  emits_steps.
  all: try (simpl; split; [discriminate | reflexivity]).
  all: congruence.
Qed.

Lemma yields_ret {A} (Q : A -> Prop) a : Q a -> yields Q (ret a).
Proof. intros H s a' E. injection E as <-. exact H. Qed.

Lemma yields_bind {A B} (Q : B -> Prop) (m : M A) k :
  (forall a, yields Q (k a)) -> yields Q (bind m k).
Proof.
  intros H s b. unfold bind. destruct (m s) as [[e|a] s']; simpl; [discriminate|].
  apply H.
Qed.

Lemma yields_try {A} (Q : A -> Prop) b h :
  yields Q b -> (forall e, yields Q (h e)) -> yields Q (try_except b h).
Proof.
  intros Hb Hh s a. unfold try_except. specialize (Hb s).
  destruct (b s) as [[e|a'] s']; simpl in *; [apply Hh | apply Hb].
Qed.

Lemma yields_bind_ret {A B} (Q : B -> Prop) (a : A) (k : A -> M B) :
  yields Q (k a) -> yields Q (bind (ret a) k).
Proof. intros H. exact H. Qed.

Ltac yields_auto :=
  repeat first
    [ progress cbv zeta
    | apply yields_try; [|intro]
    | apply yields_ret
    | apply yields_bind_ret
    | match goal with
      | |- yields _ (if ?b then _ else _) => destruct b
      | |- yields _ (match ?x with _ => _ end) => destruct x
      end
    | apply yields_bind; intro
    | progress unfold stage_commit_push, failure ].

Lemma yields_steps_no_url term cd msg br sf :
  yields skipped_on_success (github_push_steps term PNone cd msg br sf).
Proof.
  unfold github_push_steps. cbv beta iota delta [truthy].
  yields_auto.
  all: unfold skipped_on_success; simpl; intros H; try discriminate H.
  all: do 2 eexists; split; [reflexivity|]; split; reflexivity.
Qed.



Ltac run_step :=
  cbv beta iota delta [stage_changes stage_changes_body commit_changes
    commit_changes_body push_changes push_changes_body try_except bind] in *.

Lemma commit_marker_short_circuits term rp msg s s1 s2 pr :
  os_chdir rp s = (inr tt, s1) ->
  execute term "git status" s1 = (inr pr, s2) ->
  str_contains "nothing to commit" (stdout pr) = true ->
  commit_changes term rp msg s = (inr no_changes_result, s2).
Proof.
  intros H1 H2 H3. run_step. rewrite H1. cbv beta iota. rewrite H2.
  cbv beta iota. rewrite H3. reflexivity.
Qed.

Lemma commit_no_marker_commits term rp msg s s1 s2 pr :
  os_chdir rp s = (inr tt, s1) ->
  execute term "git status" s1 = (inr pr, s2) ->
  str_contains "nothing to commit" (stdout pr) = false ->
  exists s3, trace s3 = app (trace s2)
     [EvExec (cwd s2) ("git commit -m " ++ dq ++ py_str msg ++ dq)] /\
  ((exists e, commit_changes term rp msg s =
                (inr (PDict [("success", PBool false); ("error", PStr e)]), s3)) \/
   (exists r, commit_changes term rp msg s =
      (inr (PDict [("success", PBool (rc_ok r)); ("action", PStr "committed");
                   ("commit_message", msg); ("output", PStr (stdout r));
                   ("error", err_field r)]), s3))).
Proof.
  intros H1 H2 H3. run_step. rewrite H1. cbv beta iota. rewrite H2.
  cbv beta iota. rewrite H3. unfold execute.
  destruct (term _ _ _ _) as [[e|r] f'] eqn:Ht;
    eexists (mk_state _ f' _ _); (split; [reflexivity|]).
  - left. exists e. reflexivity.
  - right. exists r. reflexivity.
Qed.

Lemma git_add_not_status x : "git add " ++ x <> "git status".
Proof. simpl. intro H. inversion H. Qed.

Lemma add_files_same_terminal (t1 t2 : terminal) files s :
  (forall h f c cmd, cmd <> "git status" -> t1 h f c cmd = t2 h f c cmd) ->
  add_files t1 files s = add_files t2 files s.
Proof.
  intros Ht. revert s. induction files as [|x files IH]; intros s; [reflexivity|].
  cbn [add_files]. unfold bind, execute.
  rewrite Ht by apply git_add_not_status.
  destruct (t2 _ _ _ _) as [[e|r] f']; [reflexivity|].
  rewrite IH. reflexivity.
Qed.

Lemma add_files_runs_all term files s :
  (forall h f c cmd, returns (fst (term h f c cmd))) ->
  exists rs f', length rs = length files /\
    add_files term files s =
      (inr (map (fun p => file_result (fst p) (snd p)) (combine files rs)),
       mk_state (cwd s) f'
         (app (trace s) (map (fun x => EvExec (cwd s) ("git add " ++ py_str x)) files))
         (acc s)).
Proof.
  intros Hr. revert s. induction files as [|x files IH]; intros s.
  - exists [], (fs s). split; [reflexivity|]. simpl. rewrite app_nil_r.
    destruct s; reflexivity.
  - cbn [add_files]. unfold bind at 1, execute.
    destruct (Hr (trace s) (fs s) (cwd s) ("git add " ++ py_str x)) as [r Hx].
    destruct (term _ _ _ _) as [r0 f0] eqn:E. simpl in Hx. subst r0.
    destruct (IH (mk_state (cwd s) f0 (app (trace s) [EvExec (cwd s) ("git add " ++ py_str x)])
                    (acc s)))
      as [rs [f' [Hlen Hadd]]].
    exists (r :: rs), f'. split; [simpl; congruence|].
    unfold bind. rewrite Hadd. simpl. rewrite <- app_assoc. reflexivity.
Qed.

Lemma all_success_results files rs s :
  length rs = length files ->
  all_success (map (fun p => file_result (fst p) (snd p)) (combine files rs)) s =
    (inr (forallb rc_ok rs), s).
Proof.
  revert rs. induction files as [|x files IH]; intros [|r rs] Hlen; simpl in *;
    try discriminate; try reflexivity.
  unfold bind, getitem. simpl. destruct (rc_ok r); simpl.
  - apply IH. congruence.
  - reflexivity.
Qed.

Ltac destruct_inner :=
  match goal with
  | |- context [match ?x with _ => _ end] =>
      lazymatch x with
      | context [match _ with _ => _ end] => fail
      | _ => destruct x eqn:?
      end
  end.

Ltac trace_ext :=
  first [ exists []; rewrite app_nil_r; split; [reflexivity|]
        | eexists; split; [rewrite <- ?app_assoc; reflexivity|] ].

Ltac unfold_steps :=
  cbv beta iota delta [stage_changes stage_changes_body commit_changes
    commit_changes_body push_changes push_changes_body try_except bind os_chdir
    as_path get_state put_state execute ret raise] in *.

Lemma try_except_total {A} (body : M A) (h : string -> A) (s : state) :
  exists v s', try_except body (fun e => ret (h e)) s = (inr v, s').
Proof.
  unfold try_except, ret. destruct (body s) as [[e|v] s']; eauto.
Qed.

Lemma execute_trace term cmd s pr s' :
  execute term cmd s = (inr pr, s') ->
  cwd s' = cwd s /\ trace s' = app (trace s) [EvExec (cwd s) cmd].
Proof.
  unfold execute. destruct (term _ _ _ _) as [r f']. intros H. injection H as _ <-.
  split; reflexivity.
Qed.
(** ** Repository names *)

(** C1 (code_bug witness): [str.replace] removes every [".git"] in the last
    path segment, not only a trailing suffix, so the GitHub Pages repository
    [user.github.io] gets the name [userhub.io]. *)
Theorem repo_name_replaces_inner_git :
  last_elem (split_char "/"%char "https://github.com/user/user.github.io")
    = "user.github.io" /\
  repo_name_of "https://github.com/user/user.github.io" = "userhub.io".
Proof. split; reflexivity. Qed.

(** ** Exceptions inside the step functions *)

(** C9: each of the five step functions returns a value whatever its body
    does, and when the body raises, the value is the function's failure dict
    carrying the exception's message under ["error"]. *)
Theorem step_functions_catch_exceptions (term : terminal) (a b : pyval) :
  (forall s, exists v s', check_git_config term s = (inr v, s')) /\
  (forall s, exists v s', clone_repository term a b s = (inr v, s')) /\
  (forall s, exists v s', stage_changes term a b s = (inr v, s')) /\
  (forall s, exists v s', commit_changes term a b s = (inr v, s')) /\
  (forall s, exists v s', push_changes term a b s = (inr v, s')) /\
  (forall s s' e, check_git_config_body term s = (inl e, s') ->
     check_git_config term s =
       (inr (PDict [("is_configured", PBool false);
                    ("git_installed", PBool false);
                    ("error", PStr e)]), s')) /\
  (forall s s' e, clone_repository_body term a b s = (inl e, s') ->
     clone_repository term a b s =
       (inr (PDict [("success", PBool false); ("error", PStr e)]), s')) /\
  (forall s s' e, stage_changes_body term a b s = (inl e, s') ->
     stage_changes term a b s =
       (inr (PDict [("success", PBool false); ("error", PStr e)]), s')) /\
  (forall s s' e, commit_changes_body term a b s = (inl e, s') ->
     commit_changes term a b s =
       (inr (PDict [("success", PBool false); ("error", PStr e)]), s')) /\
  (forall s s' e, push_changes_body term a b s = (inl e, s') ->
     push_changes term a b s =
       (inr (PDict [("success", PBool false); ("error", PStr e)]), s')).
Proof.
  unfold check_git_config, clone_repository, stage_changes, commit_changes,
    push_changes.
  repeat match goal with |- _ /\ _ => split end; intros.
  all: first [ apply try_except_total
             | match goal with H : _ = (inl _, _) |- _ =>
                 unfold try_except; rewrite H; reflexivity end ].
Qed.

(** ** Clone or pull *)

(** C2 (amended): take the repository path [rp] that [clone_repository]
    derives from [url] and the target directory [d]. When [os.path.exists]
    holds for [rp], the step never runs a clone: it runs at most [git pull],
    inside the directory [rp] names, and either reports ["pulled"] with that
    pull's result or returns a failure with no ["action"] (for instance when
    [rp] is a regular file, so [os.chdir] raises before any pull). When the
    derived name is a plain name (not empty, [.] or [..]), [d] has no [.] or
    [..] component and nothing is on disk at the place [rp] names, it never
    runs a pull: it runs at most [git clone url], inside [d], and reports
    ["cloned"] or a failure. *)
Theorem clone_repository_pull_or_clone term url d s :
  let name := repo_name_of url in
  let rp := posix_join d name in
  let res := clone_repository term (PStr url) (PStr d) s in
  exists extra, trace (snd res) = app (trace s) extra /\
  (path_exists s rp = true ->
     exists q b, lookup s rp = inr (q, b) /\
     ((exists pr, extra = [EvChdir rp; EvExec (render q) "git pull"] /\
        fst res = inr (PDict [("success", PBool (rc_ok pr)); ("action", PStr "pulled");
                              ("repo_path", PStr rp); ("output", PStr (stdout pr));
                              ("error", err_field pr)])) \/
      ((cmds_of extra = [] \/ cmds_of extra = ["git pull"]) /\
        exists e, fst res = inr (PDict [("success", PBool false); ("error", PStr e)])))) /\
  (name <> "" -> plain_name name = true -> forallb plain_name (components d) = true ->
   fs_exists (fs s) (location s rp) = false ->
     (exists pr, extra = [EvChdir d; EvExec (render (location s d)) ("git clone " ++ url)] /\
        fst res = inr (PDict [("success", PBool (rc_ok pr)); ("action", PStr "cloned");
                              ("repo_path", PStr rp); ("output", PStr (stdout pr));
                              ("error", err_field pr)])) \/
     ((cmds_of extra = [] \/ cmds_of extra = ["git clone " ++ url]) /\
        exists e, fst res = inr (PDict [("success", PBool false); ("error", PStr e)]))).
Proof.
  intros name rp res. subst res.
  cbv beta iota delta [clone_repository clone_repository_body try_except bind].
  rewrite os_path_exists_str.
  set (ph := (if negb (path_exists s d) then os_makedirs (PStr d) else ret tt) s).
  assert (Hph : (exists e s0, ph = (inl e, s0) /\ trace s0 = trace s) \/
                (d <> "" /\ exists g,
                   ph = (inr tt, mk_state (cwd s) (app (fs s) g) (trace s) (acc s)) /\
                   (path_exists s d = true -> g = []) /\
                   forall e, In e g ->
                     (length (fst e) <= length (start s d) + length (components d))%nat)).
  { subst ph. destruct (path_exists s d) eqn:Ed; cbn [negb].
    - right. split; [intros ->; discriminate|]. exists [].
      split; [rewrite state_eta; reflexivity|]. split; [reflexivity | intros _ []].
    - destruct (os_makedirs_str d s) as [r [g [Hm Hb]]]. rewrite Hm.
      destruct r as [e|[]]; [left; do 2 eexists; split; reflexivity|].
      right. split.
      + intros ->. destruct (os_makedirs_empty s) as [e [s0 He]]. congruence.
      + exists g. split; [reflexivity|]. split; [discriminate|exact Hb]. }
  destruct Hph as [[e [s0 [He Ht]]] | [Hd [g [Hp [Hg0 Hg]]]]].
  { rewrite He. simpl. exists []. rewrite app_nil_r. split; [exact Ht|].
    split.
    - intros Hex. destruct (path_exists_lookup _ _ Hex) as [q [b Hl]].
      exists q, b. split; [exact Hl|]. right. split; [left; reflexivity | eexists; reflexivity].
    - intros. right. split; [left; reflexivity | eexists; reflexivity]. }
  assert (Hpull : path_exists s rp = true -> g = []).
  { intros Hex. apply Hg0. destruct (path_exists_lookup _ _ Hex) as [q [b Hl]].
    destruct (lookup_parent s d name _ (repo_name_no_slash url) Hd Hl) as [q' [b' Hl']].
    unfold path_exists. rewrite Hl'. reflexivity. }
  assert (Hclone : name <> "" -> plain_name name = true -> forallb plain_name (components d) = true ->
                   fs_exists (fs s) (location s rp) = false ->
                   path_exists (mk_state (cwd s) (app (fs s) g) (trace s) (acc s)) rp = false).
  { intros Hn Hpn Hpd Hloc.
    apply (absent_after_makedirs s g d name Hd Hn (repo_name_no_slash url) Hpn Hpd Hg Hloc). }
  rewrite Hp. cbn [str_method os_path_join as_path bind ret fst snd].
  fold name. fold rp. rewrite os_path_exists_str.
  destruct (path_exists (mk_state (cwd s) (app (fs s) g) (trace s) (acc s)) rp) eqn:Eb.
  - (* the derived path exists: pull *)
    assert (Hcl : name <> "" -> plain_name name = true ->
                  forallb plain_name (components d) = true ->
                  fs_exists (fs s) (location s rp) = false -> False).
    { intros H1 H2 H3 H4. discriminate (Hclone H1 H2 H3 H4). }
    rewrite os_chdir_str. cbn [cwd fs trace acc].
    destruct (chdir_target (mk_state (cwd s) (app (fs s) g) (trace s) (acc s)) rp)
      as [e|q] eqn:Ec.
    + exists [EvChdir rp]. split; [reflexivity|]. split.
      * intros Hex. destruct (path_exists_lookup _ _ Hex) as [q [b Hl]].
        exists q, b. split; [exact Hl|]. right. split; [left; reflexivity | eexists; reflexivity].
      * intros H1 H2 H3 H4. exfalso. exact (Hcl H1 H2 H3 H4).
    + unfold execute. cbn [cwd fs trace acc].
      exists [EvChdir rp; EvExec (render q) "git pull"].
      destruct (term _ _ _ "git pull") as [[e|pr] f'] eqn:Et;
        (split; [trace_eq|]); split;
        try (intros H1 H2 H3 H4; exfalso; exact (Hcl H1 H2 H3 H4));
        intros Hex; rewrite (Hpull Hex), state_eta in Ec;
        exists q, true; (split; [exact (chdir_target_lookup _ _ _ Ec)|]).
      * right. split; [right; reflexivity | eexists; reflexivity].
      * left. exists pr. split; reflexivity.
  - (* the derived path is missing: clone *)
    assert (Hpl : path_exists s rp = true -> False).
    { intros Hex. rewrite (Hpull Hex), state_eta, Hex in Eb. discriminate. }
    rewrite os_chdir_str. cbn [cwd fs trace acc].
    destruct (chdir_target (mk_state (cwd s) (app (fs s) g) (trace s) (acc s)) d)
      as [e|q] eqn:Ec.
    + exists [EvChdir d]. split; [reflexivity|]. split.
      * intros Hex. exfalso. exact (Hpl Hex).
      * intros. right. split; [left; reflexivity | eexists; reflexivity].
    + unfold execute. cbn [cwd fs trace acc py_str].
      exists [EvChdir d; EvExec (render q) ("git clone " ++ url)].
      destruct (term _ _ _ ("git clone " ++ url)) as [[e|pr] f'] eqn:Et;
        (split; [trace_eq|]); split;
        try (intros Hex; exfalso; exact (Hpl Hex));
        intros H1 H2 H3 H4.
      * right. split; [right; reflexivity | eexists; reflexivity].
      * left. exists pr. split; [|reflexivity].
        rewrite (lookup_location _ _ _ _ H3 (chdir_target_lookup _ _ _ Ec)).
        reflexivity.
Qed.

(** C2 (counterexample): [/work/repo] exists as a regular file. Then
    [os.path.exists] is true, but [clone_repository] runs no pull and reports
    no ["pulled"] action: [os.chdir] raises and the step returns a failure. *)
Lemma clone_existing_file_no_pull :
  os_path_exists (PStr "/work/repo") work_state = (inr true, work_state) /\
  clone_repository quiet_terminal (PStr "https://github.com/ada/repo") (PStr "/work")
    work_state =
  (inr (PDict [("success", PBool false);
               ("error", PStr "[Errno 20] Not a directory: '/work/repo'")]),
   mk_state "/work" (fs work_state) [EvChdir "/work/repo"] open_access).
Proof. split; vm_compute; reflexivity. Qed.

(** ** Requests without a repository URL *)

(** C3: when the request has no [repo_url] (absent or [None]), the handler
    never runs [git clone] or [git pull], every [os.chdir] it performs
    targets [clone_directory] (the process's working directory by default),
    and a 200 response reports the clone step as ["Skipped"]. *)
Theorem no_repo_url_uses_clone_directory term kvs s :
  (dict_find "repo_url" kvs = None \/ dict_find "repo_url" kvs = Some PNone) ->
  let cd := match dict_find "clone_directory" kvs with
            | Some v => v | None => PStr (cwd s) end in
  (exists extra, trace (snd (github_push term (PDict kvs) s)) = app (trace s) extra /\
                 Forall (no_clone_event cd) extra) /\
  (forall r, fst (github_push term (PDict kvs) s) = inr r -> skipped_on_success r).
Proof.
  intros Hurl cd. rewrite github_push_dict. fold cd.
  destruct (negb (fs_is_dir (fs s) (cwd_path s))).
  { split; [exists []; rewrite app_nil_r; split; [reflexivity|constructor]|].
    intros r H. injection H as <-. unfold skipped_on_success. simpl. discriminate. }
  assert (Hu : match dict_find "repo_url" kvs with Some v => v | None => PNone end = PNone)
    by (destruct Hurl as [-> | ->]; reflexivity).
  rewrite Hu. split.
  - apply emits_try; [apply emits_steps_no_url | intros; apply emits_ret].
  - intros r. apply yields_try; [apply yields_steps_no_url | intros e].
    apply yields_ret. unfold skipped_on_success. simpl. discriminate.
Qed.

Lemma no_repo_url_uses_clone_directory_witness :
  let kvs := [("clone_directory", PStr "/work"); ("repo_url", PNone)] in
  let cd := PStr "/work" in
  (exists r, fst (github_push configured_terminal (PDict kvs) work_state) = inr r /\
             status r = 200%Z) /\
  (exists extra, trace (snd (github_push configured_terminal (PDict kvs) work_state))
                   = app (trace work_state) extra /\
                 Forall (no_clone_event cd) extra) /\
  (forall r, fst (github_push configured_terminal (PDict kvs) work_state) = inr r ->
             skipped_on_success r).
Proof.
  split; [eexists; split; vm_compute; reflexivity|].
  exact (no_repo_url_uses_clone_directory configured_terminal
           [("clone_directory", PStr "/work"); ("repo_url", PNone)] work_state
           (or_intror eq_refl)).
Defined.

(** ** Staging *)




(** C5: [specific_files = []] behaves exactly as an absent [specific_files]:
    the two calls are the same computation, which runs at most [git status]
    and [git add .], and any result carrying an ["action"] says
    ["staged_all"]. *)
Theorem stage_empty_list_is_stage_all (term : terminal) (rp : pyval) :
  stage_changes term rp (PList []) = stage_changes term rp PNone /\
  forall s, let (r, s') := stage_changes term rp (PList []) s in
   (exists extra, trace s' = app (trace s) extra /\
      (cmds_of extra = [] \/ cmds_of extra = ["git status"] \/
       cmds_of extra = ["git status"; "git add ."])) /\
   (forall d a, r = inr (PDict d) -> dict_find "action" d = Some a -> a = PStr "staged_all").
Proof.
  split; [reflexivity|].
  intros s. unfold_steps.
  destruct rp; simpl.
  all: repeat (destruct_inner; simpl).
  all: split; [trace_ext; simpl; tauto
              | intros d a Hr Ha; injection Hr as <-; simpl in Ha; congruence].
Qed.

Lemma trace_after_chdir_status {A} term rp (k : proc_result -> M A) (h : string -> A) s s1 :
  os_chdir rp s = (inr tt, s1) ->
  (forall x, emits (fun _ => True) (k x)) ->
  exists extra,
    trace (snd (try_except (os_chdir rp ;;; (x <- execute term "git status" ;; k x))
                           (fun e => ret (h e)) s)) =
    app (trace s1) (EvExec (cwd s1) "git status" :: extra).
Proof.
  intros Hc Hk. unfold try_except, bind at 1. rewrite Hc.
  cbv beta iota delta [bind execute].
  destruct (term (trace s1) (fs s1) (cwd s1) "git status") as [[e|p] f1].
  - exists []. reflexivity.
  - destruct (Hk p (mk_state (cwd s1) f1 (app (trace s1) [EvExec (cwd s1) "git status"])
                             (acc s1))) as [extra [Ht _]].
    exists extra.
    destruct (k p _) as [[e|a] s'] eqn:E; simpl in Ht |- *;
      rewrite Ht, <- app_assoc; reflexivity.
Qed.

(** C10 (amended): whenever [os.chdir] succeeds, [stage_changes] runs
    [git status] right after it, before any staging command, and then
    discards the output. Two terminals that agree on every other
    command, and whose [git status] both return and leave the same file
    system, give the same result and the same final state, whatever the two
    status outputs are. *)
Theorem stage_status_snapshot_discarded (t1 t2 : terminal) rp files s :
  (forall s1, os_chdir rp s = (inr tt, s1) ->
     exists extra, trace (snd (stage_changes t1 rp files s)) =
                   app (trace s1) (EvExec (cwd s1) "git status" :: extra)) /\
  ((forall h f c cmd, cmd <> "git status" -> t1 h f c cmd = t2 h f c cmd) ->
   (forall h f c, snd (t1 h f c "git status") = snd (t2 h f c "git status") /\
                  returns (fst (t1 h f c "git status")) /\
                  returns (fst (t2 h f c "git status"))) ->
   stage_changes t1 rp files s = stage_changes t2 rp files s).
Proof.
  split.
  { intros s1 Hc. unfold stage_changes, stage_changes_body.
    apply trace_after_chdir_status; [exact Hc|].
    intros x. emits_auto; constructor. }
  intros Ht Hs. run_step.
  destruct (os_chdir rp s) as [[e|[]] s1]; [reflexivity|].
  unfold execute at 1 3.
  destruct (Hs (trace s1) (fs s1) (cwd s1)) as [Hf [[p1 Hp1] [p2 Hp2]]].
  destruct (t1 _ _ _ "git status") as [r1 f1] eqn:E1.
  destruct (t2 _ _ _ "git status") as [r2 f2] eqn:E2.
  simpl in Hf, Hp1, Hp2. subst.
  destruct (truthy files).
  - destruct (py_iter files _) as [[e|l] s2]; [reflexivity|].
    rewrite (add_files_same_terminal t1 t2 l s2 Ht). reflexivity.
  - unfold execute. rewrite Ht by (intro H; inversion H). reflexivity.
Qed.

Lemma stage_status_snapshot_discarded_witness :
  (exists extra, trace (snd (stage_changes quiet_terminal (PStr "/work") PNone work_state)) =
     app (trace (snd (os_chdir (PStr "/work") work_state)))
         (EvExec (cwd (snd (os_chdir (PStr "/work") work_state))) "git status" :: extra)) /\
  stage_changes quiet_terminal (PStr "/work") PNone work_state =
  stage_changes modified_terminal (PStr "/work") PNone work_state.
Proof.
  destruct (stage_status_snapshot_discarded quiet_terminal modified_terminal
              (PStr "/work") PNone work_state) as [H1 H2].
  split.
  - apply H1. vm_compute. reflexivity.
  - apply H2.
    + intros h f c cmd Hc. unfold modified_terminal.
      apply String.eqb_neq in Hc. rewrite Hc. reflexivity.
    + intros h f c. vm_compute. split; [reflexivity|]. split; eexists; reflexivity.
Defined.

(** C10 (counterexample): [git status] prints [modified_status]; the step
    runs it, but the result it returns holds no trace of that text. *)
Lemma stage_result_omits_status :
  let r := stage_changes modified_terminal (PStr "/work") PNone work_state in
  cmds_of (trace (snd r)) = ["git status"; "git add ."] /\
  fst r = inr (PDict [("success", PBool true); ("action", PStr "staged_all");
                      ("output", PStr ""); ("error", PNone)]) /\
  existsb (String.eqb modified_status)
    (match fst r with inr v => pv_strings v | inl _ => [] end) = false.
Proof. vm_compute. split; [reflexivity|]. split; reflexivity. Qed.

(** ** Committing *)

(** C6: when the status that [commit_changes] reads contains
    ["nothing to commit"], the step returns success with action
    ["no_changes"], and [git status] is the only command it runs. *)
Theorem commit_nothing_to_commit_no_changes term rp msg s s1 s2 pr :
  os_chdir rp s = (inr tt, s1) ->
  execute term "git status" s1 = (inr pr, s2) ->
  str_contains "nothing to commit" (stdout pr) = true ->
  commit_changes term rp msg s = (inr no_changes_result, s2) /\
  trace s2 = app (trace s1) [EvExec (cwd s1) "git status"].
Proof.
  intros H1 H2 H3. split.
  - exact (commit_marker_short_circuits term rp msg s s1 s2 pr H1 H2 H3).
  - exact (proj2 (execute_trace term "git status" s1 pr s2 H2)).
Qed.

Lemma commit_nothing_to_commit_no_changes_witness :
  let s1 := snd (os_chdir (PStr "/work") work_state) in
  let term := sample_terminal "nothing to commit, working tree clean" 0 0 in
  commit_changes term (PStr "/work") (PStr "msg") work_state =
    (inr no_changes_result, snd (execute term "git status" s1)) /\
  trace (snd (execute term "git status" s1)) =
    app (trace s1) [EvExec (cwd s1) "git status"].
Proof.
  apply (commit_nothing_to_commit_no_changes
           (sample_terminal "nothing to commit, working tree clean" 0 0)
           (PStr "/work") (PStr "msg") work_state
           (snd (os_chdir (PStr "/work") work_state))
           (snd (execute (sample_terminal "nothing to commit, working tree clean" 0 0)
                   "git status" (snd (os_chdir (PStr "/work") work_state))))
           (mk_proc 0 "nothing to commit, working tree clean" "")).
  all: vm_compute; reflexivity.
Defined.

(** C7 (amended): a second [commit_changes] right after a first one returns
    ["no_changes"] exactly when the status it reads contains
    ["nothing to commit"]; otherwise it runs [git commit] again and reports
    action ["committed"] with that commit's result, or a failure. *)
Theorem commit_second_call_follows_status term rp msg s s2 s3 pr :
  let s1 := snd (commit_changes term rp msg s) in
  os_chdir rp s1 = (inr tt, s2) ->
  execute term "git status" s2 = (inr pr, s3) ->
  (str_contains "nothing to commit" (stdout pr) = true ->
     commit_changes term rp msg s1 = (inr no_changes_result, s3)) /\
  (str_contains "nothing to commit" (stdout pr) = false ->
     trace (snd (commit_changes term rp msg s1)) =
       app (trace s3) [EvExec (cwd s3) ("git commit -m " ++ dq ++ py_str msg ++ dq)] /\
     ((exists e, fst (commit_changes term rp msg s1) =
                   inr (PDict [("success", PBool false); ("error", PStr e)])) \/
      (exists r, fst (commit_changes term rp msg s1) =
         inr (PDict [("success", PBool (rc_ok r)); ("action", PStr "committed");
                     ("commit_message", msg); ("output", PStr (stdout r));
                     ("error", err_field r)])))).
Proof.
  intros s1 H1 H2. split.
  - intros H3. exact (commit_marker_short_circuits term rp msg s1 s2 s3 pr H1 H2 H3).
  - intros H3.
    destruct (commit_no_marker_commits term rp msg s1 s2 s3 pr H1 H2 H3)
      as [s4 [Ht [[e He]|[r Hr]]]].
    + rewrite He. split; [exact Ht|]. left. exists e. reflexivity.
    + rewrite Hr. split; [exact Ht|]. right. exists r. reflexivity.
Qed.

Lemma commit_second_call_follows_status_witness :
  let s1 := snd (commit_changes untracked_terminal (PStr "/work") (PStr "msg") work_state) in
  let s2 := snd (os_chdir (PStr "/work") s1) in
  let s3 := snd (execute untracked_terminal "git status" s2) in
  (str_contains "nothing to commit" untracked_status = true ->
     commit_changes untracked_terminal (PStr "/work") (PStr "msg") s1 =
       (inr no_changes_result, s3)) /\
  (str_contains "nothing to commit" untracked_status = false ->
     trace (snd (commit_changes untracked_terminal (PStr "/work") (PStr "msg") s1)) =
       app (trace s3) [EvExec (cwd s3) ("git commit -m " ++ dq ++ "msg" ++ dq)] /\
     ((exists e, fst (commit_changes untracked_terminal (PStr "/work") (PStr "msg") s1) =
                   inr (PDict [("success", PBool false); ("error", PStr e)])) \/
      (exists r, fst (commit_changes untracked_terminal (PStr "/work") (PStr "msg") s1) =
         inr (PDict [("success", PBool (rc_ok r)); ("action", PStr "committed");
                     ("commit_message", PStr "msg"); ("output", PStr (stdout r));
                     ("error", err_field r)])))).
Proof.
  apply (commit_second_call_follows_status untracked_terminal (PStr "/work") (PStr "msg")
           work_state
           (snd (os_chdir (PStr "/work")
                   (snd (commit_changes untracked_terminal (PStr "/work") (PStr "msg")
                           work_state))))
           (snd (execute untracked_terminal "git status"
                   (snd (os_chdir (PStr "/work")
                           (snd (commit_changes untracked_terminal (PStr "/work")
                                   (PStr "msg") work_state))))))
           (mk_proc 0 untracked_status "")).
  all: vm_compute; reflexivity.
Defined.

(** C7 (counterexample): in a repository whose only changes are untracked
    files, [git status] does not print ["nothing to commit"] and
    [git commit] exits 1. Two [commit_changes] calls in a row, with the
    file system unchanged in between, both run [git commit], and the second
    reports action ["committed"] with success false. *)
Lemma commit_twice_untracked_not_idempotent :
  let s1 := snd (commit_changes untracked_terminal (PStr "/work") (PStr "msg") work_state) in
  let r2 := commit_changes untracked_terminal (PStr "/work") (PStr "msg") s1 in
  fs s1 = fs work_state /\
  fst r2 = inr (PDict [("success", PBool false); ("action", PStr "committed");
                       ("commit_message", PStr "msg");
                       ("output", PStr untracked_status); ("error", PStr "")]) /\
  cmds_of (trace (snd r2)) =
    ["git status"; "git commit -m " ++ dq ++ "msg" ++ dq;
     "git status"; "git commit -m " ++ dq ++ "msg" ++ dq].
Proof. vm_compute. split; [reflexivity|]. split; reflexivity. Qed.

(** ** Git identity *)




(** * Further properties of the handler *)

(** X1 (github_push): whatever the request and the environment, the route
    answers with status 200, 400 or 500 and a dict body whose [success]
    entry is [True] exactly when the status is 200. *)
Theorem github_push_response_shape term data s r :
  fst (github_push term data s) = inr r -> response_shape r.
Proof.
  revert s r. change (yields response_shape (github_push term data)).
  unfold github_push, github_push_steps.
  yields_auto.
  all: unfold response_shape; simpl; split; [lia | eexists; split; reflexivity].
Qed.

Lemma github_push_response_shape_witness :
  exists r, fst (github_push no_identity_terminal
                   (PDict [("clone_directory", PStr "/work")]) work_state) = inr r /\
            response_shape r.
Proof.
  eexists. split; [vm_compute; reflexivity|].
  apply (github_push_response_shape no_identity_terminal
           (PDict [("clone_directory", PStr "/work")]) work_state).
  vm_compute. reflexivity.
Defined.


Lemma yields_getitem {B} (Q : B -> Prop) v k (f : pyval -> M B) :
  (forall d a, v = PDict d -> dict_find k d = Some a -> yields Q (f a)) ->
  yields Q (bind (getitem v k) f).
Proof.
  intros H s b. unfold bind, getitem.
  destruct v; try (simpl; discriminate).
  destruct (dict_find k l) eqn:E; [|simpl; discriminate].
  apply (H l p eq_refl E).
Qed.

Ltac yields_flags :=
  repeat first
    [ progress cbv zeta
    | apply yields_try; [|intro]
    | apply yields_ret
    | apply yields_bind_ret
    | apply yields_getitem; intros ? ? ? ?
    | match goal with
      | |- yields _ (if negb (truthy ?a) then _ else _) =>
          destruct (truthy a) eqn:?; cbn [negb]
      | |- yields _ (if ?b then _ else _) => destruct b eqn:?
      | |- yields _ (match ?x with _ => _ end) => destruct x eqn:?
      end
    | apply yields_bind; intro
    | progress unfold stage_commit_push, failure ].

(** X2 (github_push): a 200 response carries details in which the git
    configuration is marked configured, the clone is [Skipped] or succeeded,
    and staging, committing and pushing all succeeded. *)
Theorem github_push_200_all_steps_ok term data s r :
  fst (github_push term data s) = inr r -> all_steps_ok r.
Proof.
  revert s r. change (yields all_steps_ok (github_push term data)).
  unfold github_push, github_push_steps.
  yields_flags.
  all: unfold all_steps_ok; simpl; intros Hst; try discriminate Hst.
  all: subst; do 2 eexists; split; [reflexivity|]; split; [reflexivity|];
       split; [reflexivity|].
  all: unfold ok_entry; simpl.
  all: repeat split; eauto 6.
Qed.

Lemma github_push_200_all_steps_ok_witness :
  exists r, fst (github_push configured_terminal
                   (PDict [("clone_directory", PStr "/work")]) work_state) = inr r /\
            all_steps_ok r.
Proof.
  eexists. split; [vm_compute; reflexivity|].
  apply (github_push_200_all_steps_ok configured_terminal
           (PDict [("clone_directory", PStr "/work")]) work_state).
  vm_compute. reflexivity.
Defined.


Lemma emits_clone P term url d :
  (forall p, P (EvChdir p)) ->
  (forall c, P (EvExec c "git pull")) ->
  (forall c, P (EvExec c ("git clone " ++ py_str url))) ->
  emits P (clone_repository term url d).
Proof.
  intros H1 H2 H3. unfold clone_repository, clone_repository_body. emits_auto; auto.
Qed.

Lemma eu_of_emits {A} Q P (m : M A) : emits P m -> emits_unless Q P m.
Proof. intros H s. destruct (H s) as [e [He F]]. exists e. auto. Qed.

Lemma eu_bind {A B} Q P (m : M A) (k : A -> M B) :
  emits P m -> (forall a, emits_unless Q P (k a)) -> emits_unless Q P (bind m k).
Proof.
  intros Hm Hk s. unfold bind. destruct (Hm s) as [e1 [H1 F1]].
  destruct (m s) as [[e|a] s1]; simpl in *.
  - exists e1. auto.
  - destruct (Hk a s1) as [e2 [H2 [F2|F2]]]; exists (app e1 e2);
      (split; [rewrite H2, H1, app_assoc; reflexivity|]).
    + left. apply Forall_app. auto.
    + right. exact F2.
Qed.

Lemma eu_try {A} Q P (b : M A) h :
  emits_unless Q P b -> (forall e, emits P (h e)) -> emits_unless Q P (try_except b h).
Proof.
  intros Hb Hh s. unfold try_except. destruct (Hb s) as [e1 [H1 F1]].
  destruct (b s) as [[e|a] s1]; simpl in *.
  - destruct F1 as [F1|[a [Ha _]]]; [|discriminate].
    destruct (Hh e s1) as [e2 [H2 F2]]. exists (app e1 e2).
    split; [rewrite H2, H1, app_assoc; reflexivity|]. left. apply Forall_app. auto.
  - exists e1. auto.
Qed.

Lemma eu_final {A B} Q P G (m : M A) (k : A -> M B) :
  emits (fun _ => True) (bind m k) ->
  safe G m -> (forall a, G a -> safe Q (k a)) -> emits_unless Q P (bind m k).
Proof.
  intros Ht Hm Hk s. destruct (Ht s) as [e [He _]]. exists e. split; [exact He|].
  right. destruct (Hm s) as [a [s1 [E Ga]]].
  destruct (Hk a Ga s1) as [r [s2 [E2 Qr]]].
  exists r. split; [|exact Qr]. unfold bind. rewrite E, E2. reflexivity.
Qed.

Lemma safe_ret {A} (G : A -> Prop) a : G a -> safe G (ret a).
Proof. intros H s. exists a, s. auto. Qed.

Lemma safe_bind {A B} (G1 : A -> Prop) (G : B -> Prop) m k :
  safe G1 m -> (forall a, G1 a -> safe G (k a)) -> safe G (bind m k).
Proof.
  intros Hm Hk s. destruct (Hm s) as [a [s1 [E Ga]]].
  destruct (Hk a Ga s1) as [r [s2 [E2 Gr]]].
  exists r, s2. unfold bind. rewrite E. auto.
Qed.

Lemma safe_getitem {B} (G : B -> Prop) d k a (f : pyval -> M B) :
  dict_find k d = Some a -> safe G (f a) -> safe G (bind (getitem (PDict d) k) f).
Proof. intros E H. unfold bind, getitem. rewrite E. exact H. Qed.

Lemma safe_try_yields {A} (G : A -> Prop) b h :
  yields G b -> (forall e, G (h e)) -> safe G (try_except b (fun e => ret (h e))).
Proof.
  intros Hb Hh s. unfold try_except. specialize (Hb s).
  destruct (b s) as [[e|a] s1]; simpl in *.
  - exists (h e), s1. auto.
  - exists a, s1. auto.
Qed.

Lemma safe_stage term rp sf : safe success_dict (stage_changes term rp sf).
Proof.
  apply safe_try_yields; [|intros e; do 2 eexists; split; reflexivity].
  unfold stage_changes_body. yields_auto; do 2 eexists; split; reflexivity.
Qed.

Lemma safe_commit term rp msg : safe success_dict (commit_changes term rp msg).
Proof.
  apply safe_try_yields; [|intros e; do 2 eexists; split; reflexivity].
  unfold commit_changes_body. yields_auto; do 2 eexists; split; reflexivity.
Qed.

Lemma safe_push term rp br : safe success_dict (push_changes term rp br).
Proof.
  apply safe_try_yields; [|intros e; do 2 eexists; split; reflexivity].
  unfold push_changes_body. yields_auto; do 2 eexists; split; reflexivity.
Qed.

Ltac safe_tail :=
  repeat first
    [ progress cbv zeta
    | progress unfold failure
    | apply safe_ret
    | match goal with
      | H : success_dict ?v |- safe _ (bind (getitem ?v "success") _) =>
          let d := fresh "d" in let b := fresh "b" in
          let E := fresh "E" in let Hf := fresh "Hf" in
          destruct H as [d [b [E Hf]]]; subst v;
          apply (safe_getitem _ _ _ _ _ Hf); destruct b; cbn [truthy negb]
      end
    | apply (safe_bind success_dict);
        [first [apply safe_stage | apply safe_commit | apply safe_push] | intros ? ?] ].

Ltac side_cmds := intros; simpl; first [exact I | reflexivity | auto].

Ltac emits_all :=
  repeat first
    [ apply emits_ret
    | apply emits_check; side_cmds
    | apply emits_clone; side_cmds
    | apply emits_stage; side_cmds
    | apply emits_commit; side_cmds
    | apply emits_push; side_cmds
    | progress unfold stage_commit_push, failure
    | apply emits_bind_ret
    | progress emits_auto ].

Ltac eu_auto :=
  repeat first
    [ progress cbv zeta
    | apply eu_try; [|intro; apply emits_ret]
    | progress unfold stage_commit_push, failure
    | apply eu_bind; [solve [emits_all; side_cmds] | intro]
    | match goal with
      | |- emits_unless _ _ (if ?b then _ else _) => destruct b
      | |- emits_unless _ _ (match ?x with _ => _ end) => destruct x
      end
    | apply eu_of_emits; solve [emits_all; side_cmds]
    | apply (eu_final _ _ success_dict);
        [ solve [emits_all; side_cmds]
        | first [apply safe_stage | apply safe_commit | apply safe_push]
        | intros ? ?; safe_tail ] ].

(** X3 (github_push): the pipeline runs [git add] only if the response is a
    200 or reports a failure at staging or later; likewise [git commit] only
    with a 200 or a commit or push failure, and [git push] only with a 200 or
    a push failure. *)
Theorem github_push_stops_at_failed_step term data :
  emits_unless (reached ["Failed to stage changes"; "Failed to commit changes";
                         "Failed to push changes"])
               (not_cmd "git add ") (github_push term data) /\
  emits_unless (reached ["Failed to commit changes"; "Failed to push changes"])
               (not_cmd "git commit ") (github_push term data) /\
  emits_unless (reached ["Failed to push changes"])
               (not_cmd "git push ") (github_push term data).
Proof.
  unfold github_push, github_push_steps.
  split; [|split]; eu_auto.
  all: unfold reached, resp_message; simpl; eauto 7.
Qed.

(** X4 (github_push): a JSON body that is not an object makes the first
    [data.get] raise: the route answers 500 with the error message, runs
    nothing and leaves the state unchanged. *)
Theorem github_push_non_dict_body term data s :
  (forall kvs, data <> PDict kvs) ->
  exists e, github_push term data s =
    (inr (mk_response 500 (PDict [("success", PBool false);
                                  ("message", PStr ("An error occurred: " ++ e));
                                  ("error", PStr e)])), s).
Proof.
  intros H. destruct data; try (eexists; reflexivity).
  exfalso. exact (H l eq_refl).
Qed.

Lemma github_push_non_dict_body_witness :
  exists e, github_push quiet_terminal (PList [PStr "a.py"]) work_state =
    (inr (mk_response 500 (PDict [("success", PBool false);
                                  ("message", PStr ("An error occurred: " ++ e));
                                  ("error", PStr e)])), work_state).
Proof.
  apply (github_push_non_dict_body quiet_terminal (PList [PStr "a.py"]) work_state).
  intros kvs. discriminate.
Defined.



Ltac side_cmds2 := intros; simpl; first [exact I | reflexivity | discriminate | auto].

Ltac emits_all2 :=
  repeat first
    [ apply emits_ret
    | apply emits_check; side_cmds2
    | apply emits_clone; side_cmds2
    | apply emits_stage; side_cmds2
    | apply emits_commit; side_cmds2
    | apply emits_push; side_cmds2
    | progress unfold stage_commit_push, failure
    | apply emits_bind_ret
    | progress emits_auto ].

(** X5 (github_push, commit_changes, push_changes): [data.get] replaces only
    missing keys, so an explicit [null] branch makes the only push command
    [git push origin None], and an explicit [null] commit message makes the
    only commit command [git commit -m "None"]. *)
Theorem explicit_null_defaults term kvs :
  (dict_find "branch_name" kvs = Some PNone ->
   emits (only_cmd "git push " "git push origin None") (github_push term (PDict kvs))) /\
  (dict_find "commit_message" kvs = Some PNone ->
   emits (only_cmd "git commit " ("git commit -m " ++ dq ++ "None" ++ dq))
         (github_push term (PDict kvs))).
Proof.
  split; intros Hk s; rewrite github_push_dict;
    (destruct (negb (fs_is_dir (fs s) (cwd_path s)));
     [exists []; split; [symmetry; apply app_nil_r | constructor] |]);
    rewrite Hk;
    generalize (match dict_find "clone_directory" kvs with
                | Some v => v | None => PStr (cwd s) end); intros cd; revert s;
    match goal with
    | |- forall s, exists extra, trace (snd (?m s)) = _ /\ Forall ?P extra =>
        change (emits P m)
    end;
    unfold github_push_steps; emits_all2; side_cmds2.
Qed.

(** X6 (stage_changes): when [specific_files] is a non-empty string, the
    loop iterates over its characters: one [git add] per character, after
    one [git status], and the result lists one entry per character. *)
Theorem stage_string_files_per_character term rp str s s1 :
  str <> "" ->
  os_chdir rp s = (inr tt, s1) ->
  (forall h f c cmd, returns (fst (term h f c cmd))) ->
  let chars1 := map (fun a => PStr (String a EmptyString)) (list_ascii_of_string str) in
  exists rs s', length rs = String.length str /\
    stage_changes term rp (PStr str) s =
      (inr (PDict [("success", PBool (forallb rc_ok rs));
                   ("action", PStr "staged_specific_files");
                   ("files", PStr str);
                   ("results", PList (map (fun p => file_result (fst p) (snd p))
                                          (combine chars1 rs)))]), s') /\
    trace s' = app (trace s1)
      (EvExec (cwd s1) "git status"
         :: map (fun a => EvExec (cwd s1) ("git add " ++ String a EmptyString))
                (list_ascii_of_string str)).
Proof.
  intros Hne Hcd Hr chars1. run_step. rewrite Hcd. cbv beta iota.
  unfold execute at 1.
  destruct (Hr (trace s1) (fs s1) (cwd s1) "git status") as [st Hst].
  destruct (term _ _ _ "git status") as [r0 f0] eqn:E. simpl in Hst. subst r0.
  cbv beta iota.
  assert (Ht : truthy (PStr str) = true).
  { unfold truthy. destruct (String.eqb str "") eqn:Es; [|reflexivity].
    apply String.eqb_eq in Es. contradiction. }
  rewrite Ht. cbn [py_iter ret]. fold chars1.
  destruct (add_files_runs_all term chars1
              (mk_state (cwd s1) f0 (app (trace s1) [EvExec (cwd s1) "git status"]) (acc s1)) Hr)
    as [rs [f' [Hlen Hadd]]].
  rewrite Hadd. cbv beta iota.
  rewrite all_success_results by exact Hlen.
  eexists rs, _. split.
  { rewrite Hlen. unfold chars1. rewrite length_map.
    clear. induction str as [|a str IH]; simpl; congruence. }
  split; [reflexivity|].
  simpl. rewrite <- app_assoc. unfold chars1. rewrite map_map. reflexivity.
Qed.

Lemma stage_string_files_per_character_witness :
  let chars1 := map (fun a => PStr (String a EmptyString)) (list_ascii_of_string "ab") in
  exists rs s', length rs = String.length "ab" /\
    stage_changes quiet_terminal (PStr "/work") (PStr "ab") work_state =
      (inr (PDict [("success", PBool (forallb rc_ok rs));
                   ("action", PStr "staged_specific_files");
                   ("files", PStr "ab");
                   ("results", PList (map (fun p => file_result (fst p) (snd p))
                                          (combine chars1 rs)))]), s') /\
    trace s' = app (trace (snd (os_chdir (PStr "/work") work_state)))
      (EvExec (cwd (snd (os_chdir (PStr "/work") work_state))) "git status"
         :: map (fun a => EvExec (cwd (snd (os_chdir (PStr "/work") work_state)))
                             ("git add " ++ String a EmptyString))
                (list_ascii_of_string "ab")).
Proof.
  apply (stage_string_files_per_character quiet_terminal (PStr "/work") "ab" work_state
           (snd (os_chdir (PStr "/work") work_state))).
  - discriminate.
  - vm_compute. reflexivity.
  - intros h f c cmd. eexists. reflexivity.
Defined.

Lemma repo_name_trailing_slash u : repo_name_of (u ++ "/") = "".
Proof.
  unfold repo_name_of, last_elem. rewrite (split_char_app "/"%char u "").
  simpl. rewrite last_last. reflexivity.
Qed.

(** X7 (clone_repository): for a repository URL ending in a slash the
    repository name is empty, so the repository path is the clone directory
    followed by a slash; when [os.chdir] can enter the clone directory, the
    function changes into it and runs [git pull] there, whatever it holds. *)
Theorem trailing_slash_url_pulls_in_directory term u d qd s :
  chdir_target s d = inr qd ->
  let rp := posix_join d "" in
  let res := clone_repository term (PStr (u ++ "/")) (PStr d) s in
  trace (snd res) = app (trace s) [EvChdir rp; EvExec (render qd) "git pull"] /\
  ((exists pr, fst res = inr (PDict [("success", PBool (rc_ok pr)); ("action", PStr "pulled");
                                     ("repo_path", PStr rp); ("output", PStr (stdout pr));
                                     ("error", err_field pr)])) \/
   (exists e, fst res = inr (PDict [("success", PBool false); ("error", PStr e)]))).
Proof.
  intros Hd rp res. subst res.
  pose proof (chdir_target_join_empty s d qd Hd) as Hrp. fold rp in Hrp.
  assert (Hex : forall p q, chdir_target s p = inr q -> path_exists s p = true).
  { intros p q H. unfold path_exists. rewrite (chdir_target_lookup _ _ _ H). reflexivity. }
  cbv beta iota delta [clone_repository clone_repository_body try_except bind].
  rewrite os_path_exists_str, (Hex d qd Hd). cbn [negb ret].
  cbn [str_method os_path_join as_path bind ret].
  rewrite repo_name_trailing_slash. fold rp.
  rewrite os_path_exists_str, (Hex rp qd Hrp).
  rewrite os_chdir_str, Hrp.
  unfold execute. cbn [cwd fs trace acc].
  destruct (term _ _ _ "git pull") as [[e|pr] f'].
  - simpl. split; [rewrite <- app_assoc; reflexivity|]. right. eexists. reflexivity.
  - simpl. split; [rewrite <- app_assoc; reflexivity|]. left. eexists. reflexivity.
Qed.

Lemma trailing_slash_url_pulls_in_directory_witness :
  chdir_target work_state "/work" = inr ["work"] /\
  let rp := posix_join "/work" "" in
  let res := clone_repository quiet_terminal (PStr ("https://github.com/ada/repo" ++ "/"))
               (PStr "/work") work_state in
  trace (snd res) = app (trace work_state) [EvChdir rp; EvExec (render ["work"]) "git pull"] /\
  ((exists pr, fst res = inr (PDict [("success", PBool (rc_ok pr)); ("action", PStr "pulled");
                                     ("repo_path", PStr rp); ("output", PStr (stdout pr));
                                     ("error", err_field pr)])) \/
   (exists e, fst res = inr (PDict [("success", PBool false); ("error", PStr e)]))).
Proof.
  split; [vm_compute; reflexivity|].
  apply (trailing_slash_url_pulls_in_directory quiet_terminal "https://github.com/ada/repo"
           "/work" ["work"] work_state); vm_compute; reflexivity.
Defined.

Lemma check_git_config_set term s :
  answers_ok term "git --version" false ->
  answers_ok term "git config user.name" true ->
  answers_ok term "git config user.email" true ->
  exists d s', check_git_config term s = (inr (PDict d), s') /\
               dict_find "is_configured" d = Some (PBool true).
Proof.
  intros Hv Hn He.
  cbv beta iota delta [check_git_config check_git_config_body try_except bind execute ret].
  destruct (Hv (trace s) (fs s) (cwd s)) as [p1 [E1 [R1 _]]].
  destruct (term (trace s) (fs s) (cwd s) "git --version") as [r1 f1].
  simpl in E1. subst r1. rewrite R1. cbn [negb].
  match goal with |- context [term ?h ?f ?c "git config user.name"] =>
    destruct (Hn h f c) as [p2 [E2 [R2 N2]]];
    destruct (term h f c "git config user.name") as [r2 f2] end.
  simpl in E2. subst r2. rewrite R2.
  match goal with |- context [term ?h ?f ?c "git config user.email"] =>
    destruct (He h f c) as [p3 [E3 [R3 N3]]];
    destruct (term h f c "git config user.email") as [r3 f3] end.
  simpl in E3. subst r3. rewrite R3.
  do 2 eexists. split; [reflexivity|]. simpl.
  apply String.eqb_neq in N2; [|reflexivity]. apply String.eqb_neq in N3; [|reflexivity].
  rewrite N2, N3. reflexivity.
Qed.

Lemma try_except_bind_first {A B} (m : M A) (k : A -> M B) h s a s' :
  m s = (inr a, s') -> try_except (bind m k) h s = try_except (k a) h s'.
Proof. intros E. unfold try_except, bind. rewrite E. reflexivity. Qed.

(** X9 (check_git_config, github_push): when [git --version] succeeds and
    [user.name] and [user.email] are set to non-blank values, the route never
    answers that git is not configured. *)
Theorem configured_identity_passes_check term data s r :
  answers_ok term "git --version" false ->
  answers_ok term "git config user.name" true ->
  answers_ok term "git config user.email" true ->
  fst (github_push term data s) = inr r ->
  resp_message r <> Some (PStr config_msg).
Proof.
  intros Hv Hn He.
  destruct data; try (simpl; intros H; injection H as <-; simpl; discriminate).
  rewrite github_push_dict.
  destruct (negb (fs_is_dir (fs s) (cwd_path s))).
  { simpl. intros H. injection H as <-. unfold resp_message. simpl. discriminate. }
  generalize (match dict_find "clone_directory" l with | Some v => v | None => PStr (cwd s) end); intros cd.
  unfold github_push_steps.
  destruct (check_git_config_set term s Hv Hn He) as [d [s' [E Hd]]].
  rewrite (try_except_bind_first _ _ _ _ _ _ E). cbv beta.
  unfold bind at 1, getitem at 1. rewrite Hd. cbn [truthy negb ret].
  clear E Hd. revert r. generalize s'.
  match goal with |- forall s r, fst (?m s) = inr r -> _ =>
    change (yields (fun r => resp_message r <> Some (PStr config_msg)) m) end.
  yields_auto.
  all: unfold resp_message; simpl; discriminate.
Qed.

Lemma configured_identity_passes_check_witness :
  exists r, fst (github_push configured_terminal (PDict [("clone_directory", PStr "/work")]) work_state) = inr r /\
            resp_message r <> Some (PStr config_msg).
Proof.
  eexists. split; [vm_compute; reflexivity|].
  apply (configured_identity_passes_check configured_terminal
           (PDict [("clone_directory", PStr "/work")]) work_state).
  all: try (intros h f c; eexists; split; [reflexivity|split; [reflexivity|intros Hb; first [discriminate Hb | vm_compute; discriminate]]]).
  vm_compute; reflexivity.
Defined.
